(** * reVerb: correlation bridge, command router and request state store

    A shallow embedding of

    - [reverb-vscode-webview/src/redux/reducers/inputStateSlice.js]
      (the webview side: [PENDING_REQUESTS], [vscodeFetch], the [message]
      listener, the async thunks and the [inputState] slice reducers), and
    - [src/webview/ReverbPanel.ts] (the extension side: the
      [onDidReceiveMessage] handler).

    JavaScript objects used as dictionaries are finite maps, arrays are
    lists, thrown exceptions are an explicit completion, and what the
    event loop or the extension host decides (random values, the outcome
    of [commands.executeCommand], the settlement of an awaited promise) is
    an explicit input of the function that consumes it. *)

From Stdlib Require Import ZArith Lia Ascii String.
From stdpp Require Import base strings list gmap pretty.

Local Open Scope string_scope.
Local Open Scope list_scope.
Set Warnings "-register-all".

(** ** JavaScript values *)

Module JS.

(** The JSON-like values that travel through [postMessage].  Numbers are
    restricted to integers. *)
Inductive val :=
| VUndefined
| VNull
| VBool (b : bool)
| VNum (n : Z)
| VStr (s : string)
| VArr (xs : list val)
| VObj (fields : list (string * val)).

(** [ToBoolean]: what [if (v)] tests. *)
Definition truthy (v : val) : bool :=
  match v with
  | VUndefined | VNull => false
  | VBool b => b
  | VNum n => negb (n =? 0)%Z
  | VStr s => negb (String.eqb s "")
  | VArr _ | VObj _ => true
  end.

(** A field is present when reading it does not yield [undefined]. *)
Definition present (v : val) : bool :=
  match v with VUndefined => false | _ => true end.

Inductive error := TypeError | SyntaxError.

(** Completion of a piece of code: it returns or it throws. *)
Inductive completion (A : Type) :=
| Normal (a : A)
| Throw (e : error).
Global Arguments Normal {A} a.
Global Arguments Throw {A} e.

Fixpoint assoc (k : string) (fields : list (string * val)) : val :=
  match fields with
  | [] => VUndefined
  | (k', v) :: rest => if String.eqb k k' then v else assoc k rest
  end.

(** Property read [v.k] for a data property [k]: reading from
    [undefined] or [null] throws, a primitive or an array has no such own
    property. *)
Definition get (v : val) (k : string) : completion val :=
  match v with
  | VUndefined | VNull => Throw TypeError
  | VObj fields => Normal (assoc k fields)
  | _ => Normal VUndefined
  end.

End JS.

Import JS.

(** ** The correlation bridge (inputStateSlice.js, lines 15-36) *)

Module Bridge.

(** [{ reqId, payload }], as handed to [vscode.postMessage]. *)
Record Outbound := { out_reqId : string; out_payload : val }.

(** [event.data] of a [message] event.  [reqId] is [None] when the field
    is absent. *)
Record Inbound := { reqId : option string; data : val; err : val }.

(** The state of a promise created by [vscodeFetch]. *)
Inductive promise :=
| Pending
| Resolved (v : val)
| Rejected (v : val).

(** The module-level state: the [PENDING_REQUESTS] object, the promises
    handed out so far (a promise is named by its index), the messages
    posted to the extension, and the log of every call made to a
    [resolve] or [reject] function. An entry [{ resolve, reject }] of
    [PENDING_REQUESTS] is the index of the promise both functions belong
    to. *)
Record State := {
  PENDING_REQUESTS : gmap string nat;
  promises : list promise;
  posted : list Outbound;
  settle_log : list (nat * promise)
}.

Definition init : State :=
  {| PENDING_REQUESTS := ∅; promises := []; posted := []; settle_log := [] |}.

(** The four elements of [crypto.getRandomValues(new Uint32Array(4))]. *)
Definition rand4 : Type := N * N * N * N.

Definition uint32 (n : N) : N := (n mod 2 ^ 32)%N.

(** [crypto.getRandomValues(new Uint32Array(4)).join('-')] *)
Definition reqId_of (r : rand4) : string :=
  let '(a, b, c, d) := r in
  String.concat "-" (map (λ n, pretty (uint32 n)) [a; b; c; d]).

(** [new Promise((resolve, reject) => { ... })] of [vscodeFetch]: the
    executor runs at once, the new promise is returned. *)
Definition vscodeFetch (r : rand4) (payload : val) (st : State) : nat * State :=
  let reqId := reqId_of r in
  let p := length (promises st) in
  (p, {| PENDING_REQUESTS := <[reqId := p]> (PENDING_REQUESTS st);
         promises := promises st ++ [Pending];
         posted := posted st ++ [{| out_reqId := reqId; out_payload := payload |}];
         settle_log := settle_log st |}).

(** Calling [resolve] or [reject] of promise [p]: the call is logged, and
    only a pending promise changes state. *)
Definition settle (p : nat) (o : promise) (st : State) : State :=
  {| PENDING_REQUESTS := PENDING_REQUESTS st;
     promises := match promises st !! p with
                 | Some Pending => <[p := o]> (promises st)
                 | _ => promises st
                 end;
     posted := posted st;
     settle_log := settle_log st ++ [(p, o)] |}.

(** [p.resolve(v)] / [p.reject(v)] where [p] is the result of the table
    lookup: [undefined] has no such property. *)
Definition call_on (p : option nat) (o : promise) (st : State) : State * completion unit :=
  match p with
  | Some n => (settle n o st, Normal ())
  | None => (st, Throw TypeError)
  end.

(** What a reply makes of the promise it reaches. *)
Definition outcome (d e : val) : promise :=
  if truthy d then Resolved d else Rejected e.

(** The [message] event listener. *)
Definition listener (message : Inbound) (st : State) : State * completion unit :=
  match reqId message with
  | Some r =>
      if negb (String.eqb r "") then
        let p := PENDING_REQUESTS st !! r in
        let st' := {| PENDING_REQUESTS := delete r (PENDING_REQUESTS st);
                      promises := promises st;
                      posted := posted st;
                      settle_log := settle_log st |} in
        if truthy (data message)
        then call_on p (Resolved (data message)) st'
        else call_on p (Rejected (err message)) st'
      else (st, Normal ())
  | None => (st, Normal ())
  end.

(** Several calls issued one after the other; the promises returned, in
    order. *)
Fixpoint issue (cs : list (rand4 * val)) (st : State) : list nat * State :=
  match cs with
  | [] => ([], st)
  | (r, payload) :: rest =>
      let '(p, st1) := vscodeFetch r payload st in
      let '(ps, st2) := issue rest st1 in
      (p :: ps, st2)
  end.

(** Several [message] events handled one after the other; an exception
    thrown by one handler run does not stop the next event. *)
Fixpoint deliver (ms : list Inbound) (st : State) : State * list (completion unit) :=
  match ms with
  | [] => (st, [])
  | m :: rest =>
      let '(st1, c) := listener m st in
      let '(st2, cs) := deliver rest st1 in
      (st2, c :: cs)
  end.

(** The reply to call [c] carrying [d] as [data] and [e] as [err]. *)
Definition reply_to (c : rand4 * val) (d e : val) : Inbound :=
  {| reqId := Some (reqId_of c.1); data := d; err := e |}.

(** A call in flight together with the reply it will get: the promise
    [vscodeFetch] returned, the call, and the reply's [data] and [err]. *)
Definition exchange : Type := nat * ((rand4 * val) * (val * val)).

Definition reply_of (x : exchange) : Inbound := reply_to x.2.1 x.2.2.1 x.2.2.2.

Definition settled_by (x : exchange) : nat * promise :=
  (x.1, outcome x.2.2.1 x.2.2.2).

Definition id_of (x : exchange) : string := reqId_of x.2.1.1.

(** Every exchange of [xs] is still in flight in [st]: its identifier
    maps to its promise, the promise is pending, and neither identifiers
    nor promises repeat. *)
Definition in_flight (st : State) (xs : list exchange) : Prop :=
  NoDup (fst <$> xs) ∧ NoDup (id_of <$> xs) ∧
  ∀ x, x ∈ xs →
       PENDING_REQUESTS st !! id_of x = Some x.1 ∧ promises st !! x.1 = Some Pending.

(** The table is consistent with the promises: no entry is filed under
    the empty name, every entry names a pending promise, and no promise is
    named twice. *)
Definition consistent (st : State) : Prop :=
  ∀ r p, PENDING_REQUESTS st !! r = Some p →
         r ≠ "" ∧ promises st !! p = Some Pending ∧
         ∀ r', PENDING_REQUESTS st !! r' = Some p → r' = r.

(** The states the bridge can be in. *)
Inductive reachable : State → Prop :=
| reach_init : reachable init
| reach_fetch r payload st :
    reachable st → reachable (vscodeFetch r payload st).2
| reach_message m st :
    reachable st → reachable (listener m st).1.

End Bridge.

(** ** The command router (ReverbPanel.ts, lines 63-146) *)

Module Router.

(** The message received from the webview: [msg.reqId],
    [msg.payload.command] and [msg.payload.data]. *)
Record Msg := { reqId : val; command : string; data : val }.

(** How the thenable returned by [commands.executeCommand] ends. *)
Inductive settlement :=
| Fulfilled (e : val)
| Rejected (reason : val)
| Unsettled.

(** [{ reqId: msg.reqId, data: { ... } }] *)
Definition envelope (msg : Msg) (fields : list (string * val)) : val :=
  VObj [("reqId", reqId msg); ("data", VObj fields)].

(** [ReverbPanel.currentPanel?.send(m)]: without a current panel the
    argument is not evaluated and nothing is sent. *)
Definition send (currentPanel : bool) (m : completion val) : completion (list val) :=
  if currentPanel then
    match m with
    | Normal v => Normal [v]
    | Throw e => Throw e
    end
  else Normal [].

(** The reply every correlated command but [savePreset] builds. *)
Definition plain (msg : Msg) (c : string) (currentPanel : bool) (e : val)
  : completion (list val) :=
  send currentPanel (Normal (envelope msg [("command", VStr c); ("data", e)])).

(** The reply of [savePreset], which reads [e.data] and [e.preset]. *)
Definition with_preset (msg : Msg) (currentPanel : bool) (e : val)
  : completion (list val) :=
  send currentPanel
    match get e "data" with
    | Throw x => Throw x
    | Normal d =>
        match get e "preset" with
        | Throw x => Throw x
        | Normal p =>
            Normal (envelope msg
                      [("command", VStr "savePreset"); ("data", d); ("preset", p)])
        end
    end.

(** One arm of the [switch]: the extension command executed, its
    arguments, and the callback given to [then], if any. *)
Inductive arm :=
| Then (ext : string) (args : list val)
       (callback : bool → val → completion (list val))
| Only (ext : string) (args : list val)
| Default.

(** [switch (msg.payload.command)] *)
Definition dispatch (msg : Msg) : arm :=
  let c := command msg in
  if String.eqb c "dataObjects" then
    Then "extension.dataObjects" [] (plain msg "dataObjects")
  else if String.eqb c "parseServer" then
    Then "extension.parseServer" [data msg] (plain msg "parseServer")
  else if String.eqb c "deletePreset" then
    Then "extension.deletePreset" [data msg] (plain msg "deletePreset")
  else if String.eqb c "wipeStorageObject" then
    Then "extension.wipeStorageObject" [] (plain msg "wipeStorageObject")
  else if String.eqb c "savePreset" then
    Then "extension.savePreset" [data msg] (with_preset msg)
  else if String.eqb c "validatePort" then
    Then "extension.validatePort" [data msg] (plain msg "validatePort")
  else if String.eqb c "makeRequest" then
    Then "extension.verboseRequest" [data msg] (plain msg "makeRequest")
  else if String.eqb c "openTerminal" then
    Only "extension.openTerminal" []
  else if String.eqb c "openFileInEditor" then
    Only "extension.openFileInEditor" [data msg]
  else Default.

(** What handling one message does: the extension commands executed and
    the messages posted back to the webview. *)
Record Effects := { executed : list (string * list val); sent : list val }.

(** The [onDidReceiveMessage] handler, run until nothing is left to do.
    [executeCommand] tells how each command ends, [currentPanel] whether
    [ReverbPanel.currentPanel] is set when the callback runs. *)
Definition onDidReceiveMessage
    (executeCommand : string → list val → settlement) (currentPanel : bool)
    (msg : Msg) : Effects :=
  match dispatch msg with
  | Then ext args callback =>
      {| executed := [(ext, args)];
         sent := match executeCommand ext args with
                 | Fulfilled e =>
                     match callback currentPanel e with
                     | Normal ms => ms
                     | Throw _ => []
                     end
                 | Rejected _ | Unsettled => []
                 end |}
  | Only ext args => {| executed := [(ext, args)]; sent := [] |}
  | Default => {| executed := []; sent := [] |}
  end.

(** The commands that get a [then] callback. *)
Definition correlated : list string :=
  ["dataObjects"; "parseServer"; "deletePreset"; "wipeStorageObject";
   "savePreset"; "validatePort"; "makeRequest"].

End Router.

(** ** The request state store (inputStateSlice.js, lines 38-324) *)

Module Store.

(** One row of the header or cookie editor: [{ key, value }]. *)
Record Entry := { key : string; value : string }.

Record HeaderState := { headers : list Entry }.
Record CookieState := { cookies : list Entry }.

(** A preset as the reducers read it; what they never look at is kept in
    [rest]. *)
Module Preset.
Record t := {
  id : string;
  headerState : HeaderState;
  cookieState : CookieState;
  dataState : string;
  rest : val
}.
End Preset.

Inductive PresetState :=
| PresetDefault
| PresetObject (p : Preset.t).

(** The url object produced by [JSON.parse] in [setUrlState]: plain data,
    so [pathname] and [href] are independent fields. *)
Record Url := {
  pathname : string;
  href : string;
  filePath : string;
  presets : gmap string Preset.t
}.

Inductive UrlState :=
| UrlDefault
| UrlObject (u : Url).

(** [paramState] is kept as its list of entries, in the order
    [Object.entries] enumerates names that are not array indices. *)
Record Inputs := {
  urlState : UrlState;
  presetState : PresetState;
  methodState : string;
  headerState : HeaderState;
  cookieState : CookieState;
  dataState : string;
  paramState : list (string * string)
}.

Record MasterObject := { domains : val; serverPaths : val; rootDirectory : val }.

Record State := {
  inputs : Inputs;
  masterObject : MasterObject;
  requestResult : val;
  validPort : val;
  waiting : bool;
  loading : bool
}.

Definition initialState : State :=
  {| inputs := {| urlState := UrlDefault;
                  presetState := PresetDefault;
                  methodState := "";
                  headerState := {| headers := [] |};
                  cookieState := {| cookies := [] |};
                  dataState := "";
                  paramState := [] |};
     masterObject := {| domains := VObj []; serverPaths := VArr [];
                        rootDirectory := VStr "" |};
     requestResult := VObj [];
     validPort := VBool true;
     waiting := false;
     loading := true |}.

(** *** Field assignments *)

Definition set_inputs (f : Inputs → Inputs) (s : State) : State :=
  {| inputs := f (inputs s); masterObject := masterObject s;
     requestResult := requestResult s; validPort := validPort s;
     waiting := waiting s; loading := loading s |}.

Definition set_masterObject (m : MasterObject) (s : State) : State :=
  {| inputs := inputs s; masterObject := m;
     requestResult := requestResult s; validPort := validPort s;
     waiting := waiting s; loading := loading s |}.

Definition set_requestResult (v : val) (s : State) : State :=
  {| inputs := inputs s; masterObject := masterObject s;
     requestResult := v; validPort := validPort s;
     waiting := waiting s; loading := loading s |}.

Definition set_validPort (v : val) (s : State) : State :=
  {| inputs := inputs s; masterObject := masterObject s;
     requestResult := requestResult s; validPort := v;
     waiting := waiting s; loading := loading s |}.

Definition set_waiting (b : bool) (s : State) : State :=
  {| inputs := inputs s; masterObject := masterObject s;
     requestResult := requestResult s; validPort := validPort s;
     waiting := b; loading := loading s |}.

Definition set_loading (b : bool) (s : State) : State :=
  {| inputs := inputs s; masterObject := masterObject s;
     requestResult := requestResult s; validPort := validPort s;
     waiting := waiting s; loading := b |}.

Definition set_urlState (u : UrlState) (i : Inputs) : Inputs :=
  {| urlState := u; presetState := presetState i; methodState := methodState i;
     headerState := headerState i; cookieState := cookieState i;
     dataState := dataState i; paramState := paramState i |}.

Definition set_presetState (p : PresetState) (i : Inputs) : Inputs :=
  {| urlState := urlState i; presetState := p; methodState := methodState i;
     headerState := headerState i; cookieState := cookieState i;
     dataState := dataState i; paramState := paramState i |}.

Definition set_methodState (m : string) (i : Inputs) : Inputs :=
  {| urlState := urlState i; presetState := presetState i; methodState := m;
     headerState := headerState i; cookieState := cookieState i;
     dataState := dataState i; paramState := paramState i |}.

Definition set_headerState (h : HeaderState) (i : Inputs) : Inputs :=
  {| urlState := urlState i; presetState := presetState i;
     methodState := methodState i; headerState := h;
     cookieState := cookieState i; dataState := dataState i;
     paramState := paramState i |}.

Definition set_cookieState (c : CookieState) (i : Inputs) : Inputs :=
  {| urlState := urlState i; presetState := presetState i;
     methodState := methodState i; headerState := headerState i;
     cookieState := c; dataState := dataState i; paramState := paramState i |}.

Definition set_dataState (d : string) (i : Inputs) : Inputs :=
  {| urlState := urlState i; presetState := presetState i;
     methodState := methodState i; headerState := headerState i;
     cookieState := cookieState i; dataState := d; paramState := paramState i |}.

Definition set_paramState (p : list (string * string)) (i : Inputs) : Inputs :=
  {| urlState := urlState i; presetState := presetState i;
     methodState := methodState i; headerState := headerState i;
     cookieState := cookieState i; dataState := dataState i; paramState := p |}.

Definition set_pathname (p : string) (u : Url) : Url :=
  {| pathname := p; href := href u; filePath := filePath u; presets := presets u |}.

Definition set_presets (m : gmap string Preset.t) (u : Url) : Url :=
  {| pathname := pathname u; href := href u; filePath := filePath u; presets := m |}.

(** [obj[name] = v] on an object kept as its entry list. *)
Fixpoint assign (name v : string) (o : list (string * string)) : list (string * string) :=
  match o with
  | [] => [(name, v)]
  | (k, w) :: rest =>
      if String.eqb k name then (k, v) :: rest else (k, w) :: assign name v rest
  end.

(** [resetInputs]: returns inputs to default state. *)
Definition resetInputs (state : State) : State :=
  {| inputs := {| urlState := urlState (inputs state);
                  presetState := PresetDefault;
                  methodState := methodState (inputs state);
                  headerState := {| headers := [] |};
                  cookieState := {| cookies := [] |};
                  dataState := "";
                  paramState := [] |};
     masterObject := masterObject state;
     requestResult := requestResult state;
     validPort := validPort state;
     waiting := waiting state;
     loading := loading state |}.

(** The resolved value of a bridge call as the completion reducers read
    it: [action.payload.command] and [action.payload.data]. *)
Record Reply (A : Type) := { command : string; data : A }.
Global Arguments command {A} _.
Global Arguments data {A} _.

(** The actions the slice reducer is given.  [other] stands for every
    action type the slice has no case for, among them the [pending] and
    [rejected] actions of the thunks. *)
Inductive Action :=
| setUrlState (payload : string)
| setMethodState (payload : string)
| setHeaderState (payload : HeaderState)
| setCookieState (payload : CookieState)
| setDataState (payload : string)
| setParamState (name value : string)
| setLoading (payload : bool)
| setWaiting (payload : bool)
| setValidPort (payload : val)
| setCurrentPreset (payload : string)
| setMasterObject (payload : Reply MasterObject)
| getMasterObject_fulfilled (payload : Reply MasterObject)
| vscApi_fulfilled (payload : Reply MasterObject)
| savePreset_fulfilled (payload : Reply MasterObject) (preset : Preset.t)
| validatePort_fulfilled (payload : Reply val)
| makeRequest_fulfilled (payload : option (Reply val))
| wipeStorageObject_fulfilled
| other (type : string).

(** [v === undefined] *)
Definition is_undefined (v : val) : bool :=
  match v with VUndefined => true | _ => false end.

(** [state.inputs.presetState.id] used as a property name: the string
    ['default'] has no [id], and [undefined] names the property
    ["undefined"]. *)
Definition presetState_id (p : PresetState) : string :=
  match p with
  | PresetDefault => "undefined"
  | PresetObject q => Preset.id q
  end.

(** The counter [_headers] of [setDataState]; the rows it runs over are
    the copy [JSON.parse(JSON.stringify(headers))], which has the same
    keys in the same order. *)
Definition count_content_type (hs : list Entry) : nat :=
  fold_left (λ n header, if String.eqb (key header) "Content-Type" then S n else n) hs 0.

(** [{ payload: { command: 'openFileInEditor', data: object.filePath } }] *)
Definition openFileInEditor (object : Url) : val :=
  VObj [("payload", VObj [("command", VStr "openFileInEditor");
                          ("data", VStr (filePath object))])].

(** *** The request builder (the body of the [makeRequest] thunk) *)

(** The value of one field of the request's [headers] object: a header
    string, or the cookie array. *)
Inductive HeaderValue :=
| Str (s : string)
| Arr (xs : list string).

(** [{ headers, baseURL, method, data }] *)
Module Request.
Record t := {
  headers : gmap string HeaderValue;
  baseURL : string;
  method : string;
  data : string
}.
End Request.

(** [[''].includes(el.key) || [''].includes(el.value)] *)
Definition blank (el : Entry) : bool :=
  String.eqb (key el) "" || String.eqb (value el) "".

(** [cookiesArray]: [filter] then [map], copied into [cookie]. *)
Definition cookiesArray (c : CookieState) : list string :=
  map (λ el, key el +:+ " = " +:+ value el)
      (List.filter (λ el, negb (blank el)) (cookies c)).

(** [headersObject]: the [forEach] over the header rows; a later row
    overwrites an earlier one of the same name. *)
Definition headersObject (h : HeaderState) : gmap string HeaderValue :=
  fold_left (λ o el, if blank el then o else <[key el := Str (value el)]> o)
            (headers h) ∅.

(** [cookie.length ? { cookie, ...headersObject } : { ...headersObject }]:
    the spread writes the entries of [headersObject] after [cookie], so
    they win on an equal name. *)
Definition merge_headers (cookie : list string) (o : gmap string HeaderValue)
  : gmap string HeaderValue :=
  if (0 <? length cookie)%nat then o ∪ {["cookie" := Arr cookie]} else o.

(** [s.replace(pattern, replacement)] for a string pattern: the first
    occurrence only. *)
Fixpoint replace (pattern replacement s : string) : string :=
  if String.prefix pattern s then
    replacement +:+ String.substring (String.length pattern)
                      (String.length s - String.length pattern) s
  else
    match s with
    | EmptyString => EmptyString
    | String c rest => String c (replace pattern replacement rest)
    end.

Definition hex_digit (n : N) : Ascii.ascii :=
  match String.get (N.to_nat n) "0123456789ABCDEF" with
  | Some c => c
  | None => "0"%char
  end.

(** The characters [encodeURIComponent] leaves alone. *)
Definition unreserved (c : Ascii.ascii) : bool :=
  let n := Ascii.N_of_ascii c in
  ((65 <=? n) && (n <=? 90) || (97 <=? n) && (n <=? 122)
   || (48 <=? n) && (n <=? 57))%N
  || match String.index 0 (String c EmptyString) "-_.!~*'()" with
     | Some _ => true
     | None => false
     end.

(** [encodeURIComponent] on a string held as its UTF-8 bytes: every byte
    that is not unreserved becomes [%XX]. *)
Fixpoint encodeURIComponent (s : string) : string :=
  match s with
  | EmptyString => EmptyString
  | String c rest =>
      (if unreserved c then String c EmptyString
       else String "%"%char
              (String (hex_digit (Ascii.N_of_ascii c / 16))
                 (String (hex_digit (Ascii.N_of_ascii c mod 16)) EmptyString)))
      +:+ encodeURIComponent rest
  end.

(** The [forEach] that inserts the path parameters: each non-empty value
    assigns to [currentUrl.pathname].  [currentUrl] is the object held by
    the store; when the store's state is frozen the assignment throws. *)
Definition insert_params (frozen : bool) (urlParams : list (string * string))
    (currentUrl : Url) : completion Url :=
  fold_left
    (λ acc '(k, v),
       match acc with
       | Throw e => Throw e
       | Normal u =>
           if (0 <? String.length v)%nat then
             if frozen then Throw TypeError
             else Normal (set_pathname
                            (replace (":" +:+ k) (encodeURIComponent v) (pathname u)) u)
           else Normal u
       end)
    urlParams (Normal currentUrl).

(** The [request] object built from the inputs and the url. *)
Definition build (i : Inputs) (currentUrl : Url) : Request.t :=
  let cookie := cookiesArray (cookieState i) in
  {| Request.headers := merge_headers cookie (headersObject (headerState i));
     Request.baseURL := href currentUrl;
     Request.method := methodState i;
     Request.data := dataState i |}.

Section Reducer.

(** [JSON.parse] at the two places it is applied to an action payload;
    [None] is a [SyntaxError]. *)
Variable JSON_parse_url : string → option Url.
Variable JSON_parse_preset : string → option Preset.t.

(** The slice reducer: the next state and the messages handed to
    [vscode.postMessage], or the exception thrown. *)
Definition reducer (state : State) (action : Action) : completion (State * list val) :=
  match action with
  | setUrlState payload =>
      if String.eqb payload "default" then
        Normal (set_inputs (set_urlState UrlDefault) state, [])
      else
        match JSON_parse_url payload with
        | None => Throw SyntaxError
        | Some object =>
            let newState := resetInputs state in
            let newState := set_inputs (set_urlState (UrlObject object)) newState in
            Normal (newState, [openFileInEditor object])
        end
  | setMethodState method => Normal (set_inputs (set_methodState method) state, [])
  | setHeaderState payload => Normal (set_inputs (set_headerState payload) state, [])
  | setCookieState payload => Normal (set_inputs (set_cookieState payload) state, [])
  | setDataState payload =>
      let state := set_inputs (set_dataState payload) state in
      let _headers := count_content_type (headers (headerState (inputs state))) in
      if (0 <? String.length (dataState (inputs state)))%nat && (_headers =? 0)%nat then
        Normal (set_inputs (λ i, set_headerState
                  {| headers := {| key := "Content-Type"; value := "application/json" |}
                                :: headers (headerState i) |} i) state, [])
      else Normal (state, [])
  | setParamState name value =>
      Normal (set_inputs (λ i, set_paramState (assign name value (paramState i)) i) state, [])
  | setLoading payload => Normal (set_loading payload state, [])
  | setWaiting payload => Normal (set_waiting payload state, [])
  | setValidPort payload => Normal (set_validPort payload state, [])
  | setCurrentPreset payload =>
      if String.eqb payload "default" then Normal (resetInputs state, [])
      else
        match JSON_parse_preset payload with
        | None => Throw SyntaxError
        | Some data =>
            Normal (set_inputs (λ i,
                      set_dataState (Preset.dataState data)
                        (set_cookieState (Preset.cookieState data)
                           (set_headerState (Preset.headerState data)
                              (set_presetState (PresetObject data) i)))) state, [])
        end
  | setMasterObject payload => Normal (set_masterObject (data payload) state, [])
  | getMasterObject_fulfilled payload =>
      if is_undefined (domains (data payload)) then
        Normal (set_masterObject
                  {| domains := domains (masterObject state);
                     serverPaths := serverPaths (data payload);
                     rootDirectory := rootDirectory (data payload) |} state, [])
      else Normal (set_loading false (set_masterObject (data payload) state), [])
  | vscApi_fulfilled payload =>
      let state :=
        if negb (String.eqb (command payload) "wipeStorageObject")
        then set_loading false (set_masterObject (data payload) state)
        else state in
      if String.eqb (command payload) "deletePreset" then
        let id := presetState_id (presetState (inputs state)) in
        let state := set_masterObject (data payload) state in
        let state := set_inputs (set_presetState PresetDefault) state in
        match urlState (inputs state) with
        | UrlDefault => Throw TypeError
        | UrlObject u =>
            Normal (set_inputs (set_urlState
                      (UrlObject (set_presets (delete id (presets u)) u))) state, [])
        end
      else Normal (state, [])
  | savePreset_fulfilled payload preset =>
      let state := set_masterObject (data payload) state in
      let state := set_inputs (set_presetState (PresetObject preset)) state in
      match urlState (inputs state) with
      | UrlDefault => Throw TypeError
      | UrlObject u =>
          Normal (set_inputs (set_urlState
                    (UrlObject (set_presets (<[Preset.id preset := preset]> (presets u)) u)))
                    state, [])
      end
  | validatePort_fulfilled payload => Normal (set_validPort (data payload) state, [])
  | makeRequest_fulfilled payload =>
      let state :=
        match payload with
        | Some reply => set_requestResult (data reply) state
        | None => state
        end in
      Normal (set_waiting false state, [])
  | wipeStorageObject_fulfilled => Normal (state, [])
  | other _ => Normal (state, [])
  end.

(** [dispatch(action)]: a reducer that throws leaves the store as it
    was. *)
Definition dispatch (state : State) (action : Action) : State :=
  match reducer state action with
  | Normal (state', _) => state'
  | Throw _ => state
  end.

(** *** The async thunks *)

(** How the promise returned by [vscodeFetch] ends for the awaiting
    thunk. *)
Inductive awaited (A : Type) :=
| Resolves (d : A)
| Rejects (e : val)
| Stalls.
Global Arguments Resolves {A} d.
Global Arguments Rejects {A} e.
Global Arguments Stalls {A}.

(** Where the payload creator of [makeRequest] stands once it has run as
    far as it can without a reply. *)
Inductive progress :=
| Returned
| Thrown (e : error)
| Awaiting (request : Request.t).

(** What running a thunk did: the state of the store at the end, the
    actions dispatched in order, and the payloads handed to
    [vscodeFetch]. *)
Record Run (P : Type) := {
  final : State;
  dispatched : list Action;
  fetched : list P
}.
Global Arguments final {P} _.
Global Arguments dispatched {P} _.
Global Arguments fetched {P} _.

(** The payload creator of [makeRequest] up to its [return], its
    exception, or its [await]: the state of the store, the actions it
    dispatched, and where it stands. *)
Definition makeRequest_creator (frozen : bool) (state : State)
  : State * list Action * progress :=
  let state := dispatch state (setWaiting true) in
  let i := inputs state in
  match urlState i with
  | UrlDefault =>
      (dispatch state (setWaiting false), [setWaiting true; setWaiting false], Returned)
  | UrlObject currentUrl =>
      match insert_params frozen (paramState i) currentUrl with
      | Throw e => (state, [setWaiting true], Thrown e)
      | Normal currentUrl' =>
          (set_inputs (set_urlState (UrlObject currentUrl')) state,
           [setWaiting true],
           Awaiting (build i currentUrl'))
      end
  end.

(** What [createAsyncThunk] dispatches once the payload creator is done:
    [fulfilled] with the value returned, [rejected] when it threw or the
    awaited promise was rejected, nothing as long as the promise is
    pending. *)
Definition conclude {P : Type} (state : State) (before : list Action)
    (fetched : list P) (last : option Action) : Run P :=
  match last with
  | Some action =>
      {| final := dispatch state action;
         dispatched := before ++ [action];
         fetched := fetched |}
  | None => {| final := state; dispatched := before; fetched := fetched |}
  end.

(** [dispatch(makeRequest())]; the request goes to [vscodeFetch] as
    [{ command: 'makeRequest', data: request }]. *)
Definition makeRequest (frozen : bool) (reply : Request.t → awaited (Reply val))
    (state : State) : Run Request.t :=
  let pending := other "inputState/makeRequest/pending" in
  let rejected := other "inputState/makeRequest/rejected" in
  let state := dispatch state pending in
  match makeRequest_creator frozen state with
  | (state, actions, Returned) =>
      conclude state (pending :: actions) []
        (Some (makeRequest_fulfilled None))
  | (state, actions, Thrown _) =>
      conclude state (pending :: actions) [] (Some rejected)
  | (state, actions, Awaiting request) =>
      conclude state (pending :: actions) [request]
        match reply request with
        | Resolves d => Some (makeRequest_fulfilled (Some d))
        | Rejects _ => Some rejected
        | Stalls => None
        end
  end.

(** [dispatch(vscApi(payload))]: the payload goes to [vscodeFetch] as it
    is. *)
Definition vscApi (payload : val) (reply : val → awaited (Reply MasterObject))
    (state : State) : Run val :=
  let pending := other "inputState/vscApi/pending" in
  let state := dispatch state pending in
  conclude state [pending] [payload]
    match reply payload with
    | Resolves d => Some (vscApi_fulfilled d)
    | Rejects _ => Some (other "inputState/vscApi/rejected")
    | Stalls => None
    end.

(** [dispatch(getMasterObject())] *)
Definition getMasterObject (reply : val → awaited (Reply MasterObject))
    (state : State) : Run val :=
  let payload := VObj [("command", VStr "dataObjects")] in
  let pending := other "inputState/getMasterObject/pending" in
  let state := dispatch state pending in
  conclude state [pending] [payload]
    match reply payload with
    | Resolves d => Some (getMasterObject_fulfilled d)
    | Rejects _ => Some (other "inputState/getMasterObject/rejected")
    | Stalls => None
    end.

End Reducer.

End Store.

(** ** Histories of the bridge *)

Module Session.
Import Bridge.

(** What happens to the bridge: a call to [vscodeFetch], or a [message]
    event. *)
Inductive event :=
| Fetch (r : rand4) (payload : val)
| Message (m : Inbound).

Definition step (e : event) (st : State) : State :=
  match e with
  | Fetch r payload => (vscodeFetch r payload st).2
  | Message m => (listener m st).1
  end.

Fixpoint run (es : list event) (st : State) : State :=
  match es with
  | [] => st
  | e :: rest => run rest (step e st)
  end.

(** The event has nothing to do with the identifier [k]: it is neither a
    call filed under [k] nor a message bearing [k]. *)
Definition away_from (k : string) (e : event) : Prop :=
  match e with
  | Fetch r _ => reqId_of r ≠ k
  | Message m => reqId m ≠ Some k
  end.

(** No character of the string is a dash. *)
Fixpoint dashless (s : string) : bool :=
  match s with
  | EmptyString => true
  | String c rest => negb (Ascii.eqb c "-") && dashless rest
  end.

End Session.

(** ** The channel between the two sides *)

Module Channel.

(** The object posted by [vscodeFetch] as the router's handler reads it.
    [None]: reading [msg.payload.command] throws or gives something that
    is not a string, so that no [case] of the [switch] is taken and the
    handler does nothing. *)
Definition to_extension (o : Bridge.Outbound) : option Router.Msg :=
  match get (Bridge.out_payload o) "command" with
  | Normal (VStr c) =>
      match get (Bridge.out_payload o) "data" with
      | Normal d =>
          Some {| Router.reqId := VStr (Bridge.out_reqId o);
                  Router.command := c;
                  Router.data := d |}
      | Throw _ => None
      end
  | _ => None
  end.

(** The object sent by the router as the [message] listener reads it:
    [message.reqId], [message.data] and [message.err].  [None]: the
    message is not an object whose [reqId] is a string or missing. *)
Definition to_webview (v : val) : option Bridge.Inbound :=
  match v with
  | VObj fields =>
      match assoc "reqId" fields with
      | VStr r => Some {| Bridge.reqId := Some r;
                          Bridge.data := assoc "data" fields;
                          Bridge.err := assoc "err" fields |}
      | VUndefined => Some {| Bridge.reqId := None;
                              Bridge.data := assoc "data" fields;
                              Bridge.err := assoc "err" fields |}
      | _ => None
      end
  | _ => None
  end.

(** How the operation ends whose result the router would send back for
    the posted object; [None] when the router awaits none. *)
Definition operation (executeCommand : string → list val → Router.settlement)
    (o : Bridge.Outbound) : option Router.settlement :=
  match to_extension o with
  | Some msg =>
      match Router.dispatch msg with
      | Router.Then ext args _ => Some (executeCommand ext args)
      | Router.Only _ _ | Router.Default => None
      end
  | None => None
  end.

(** The messages the webview gets back for one posted object. *)
Definition answers (executeCommand : string → list val → Router.settlement)
    (currentPanel : bool) (o : Bridge.Outbound) : list val :=
  match to_extension o with
  | Some msg => Router.sent (Router.onDidReceiveMessage executeCommand currentPanel msg)
  | None => []
  end.

(** The listener handles the messages one after the other.  [None]: one
    of them is outside what [to_webview] reads. *)
Fixpoint receive (vs : list val) (st : Bridge.State) : option Bridge.State :=
  match vs with
  | [] => Some st
  | v :: rest =>
      match to_webview v with
      | Some m => receive rest (Bridge.listener m st).1
      | None => None
      end
  end.

(** One call from the webview, through the router and back: the promise
    returned and the state of the bridge once the router's messages have
    been handled. *)
Definition round_trip (executeCommand : string → list val → Router.settlement)
    (currentPanel : bool) (r : Bridge.rand4) (payload : val) (st : Bridge.State)
  : option (nat * Bridge.State) :=
  let '(p, st1) := Bridge.vscodeFetch r payload st in
  match receive
          (answers executeCommand currentPanel
             {| Bridge.out_reqId := Bridge.reqId_of r; Bridge.out_payload := payload |})
          st1 with
  | Some st2 => Some (p, st2)
  | None => None
  end.

End Channel.

(** ** The other thunks of the slice (inputStateSlice.js, lines 54-91) *)

Module Thunks.
Import Store.

(** The preset assembled by [savePreset] from the inputs.  Its copy made
    by [JSON.parse(JSON.stringify(preset))] holds the same data. *)
Module Draft.
Record t := {
  name : string;
  urlState : UrlState;
  headerState : HeaderState;
  cookieState : CookieState;
  dataState : string
}.
End Draft.

Section Thunks.

Variable JSON_parse_url : string → option Url.
Variable JSON_parse_preset : string → option Preset.t.

Let dispatch := dispatch JSON_parse_url JSON_parse_preset.
Let conclude {P : Type} := @conclude JSON_parse_url JSON_parse_preset P.

(** [dispatch(wipeStorageObject(payload))] *)
Definition wipeStorageObject (payload : val) (reply : val → awaited val)
    (state : State) : Run val :=
  let pending := other "inputState/wipeStorageObject/pending" in
  let state := dispatch state pending in
  let state := dispatch state (setLoading true) in
  conclude state [pending; setLoading true] [payload]
    match reply payload with
    | Resolves _ => Some wipeStorageObject_fulfilled
    | Rejects _ => Some (other "inputState/wipeStorageObject/rejected")
    | Stalls => None
    end.

(** [dispatch(validatePort(payload))]: the call is
    [{ command: 'validatePort', data: payload }]. *)
Definition validatePort (payload : val) (reply : val → awaited (Reply val))
    (state : State) : Run val :=
  let request := VObj [("command", VStr "validatePort"); ("data", payload)] in
  let pending := other "inputState/validatePort/pending" in
  let state := dispatch state pending in
  conclude state [pending] [request]
    match reply request with
    | Resolves d => Some (validatePort_fulfilled d)
    | Rejects _ => Some (other "inputState/validatePort/rejected")
    | Stalls => None
    end.

(** [dispatch(savePreset(payload))]: the call is
    [{ command: 'savePreset', data: preset }]; the reply carries the new
    master object and the preset as saved. *)
Definition savePreset (payload : string)
    (reply : Draft.t → awaited (Reply MasterObject * Preset.t))
    (state : State) : Run Draft.t :=
  let pending := other "inputState/savePreset/pending" in
  let state := dispatch state pending in
  let i := inputs state in
  let preset := {| Draft.name := payload;
                   Draft.urlState := urlState i;
                   Draft.headerState := headerState i;
                   Draft.cookieState := cookieState i;
                   Draft.dataState := dataState i |} in
  conclude state [pending] [preset]
    match reply preset with
    | Resolves d => Some (savePreset_fulfilled d.1 d.2)
    | Rejects _ => Some (other "inputState/savePreset/rejected")
    | Stalls => None
    end.

End Thunks.

End Thunks.

(** ** Reading the path parameters *)

Module Params.


(** The text [pattern] occurs somewhere in [s]. *)
Definition occurs (pattern s : string) : Prop :=
  ∃ before after, s = before +:+ pattern +:+ after.

End Params.

(** ** Sample data *)

Module Samples.
Import Store.

(** A name or a string value of a JSON text, between double quotes. *)
Definition quoted (s : string) : string :=
  String (Ascii.ascii_of_nat 34) s +:+ String (Ascii.ascii_of_nat 34) EmptyString.

Definition url_json : string :=
  "{" +:+ quoted "pathname" +:+ ":" +:+ quoted "/users/:id" +:+ ","
  +:+ quoted "href" +:+ ":" +:+ quoted "http://localhost:3000/users/:id" +:+ ","
  +:+ quoted "filePath" +:+ ":" +:+ quoted "/srv/app.js" +:+ ","
  +:+ quoted "presets" +:+ ":{}}".

Definition url : Url :=
  {| pathname := "/users/:id";
     href := "http://localhost:3000/users/:id";
     filePath := "/srv/app.js";
     presets := ∅ |}.

(** A [JSON.parse] that knows the one text above. *)
Definition parse_url (text : string) : option Url :=
  if String.eqb text url_json then Some url else None.

Definition parse_preset (text : string) : option Preset.t := None.

Definition preset (id : string) : Preset.t :=
  {| Preset.id := id;
     Preset.headerState := {| headers := [{| key := "Accept"; value := "text/html" |}] |};
     Preset.cookieState := {| cookies := [] |};
     Preset.dataState := "";
     Preset.rest := VObj [("name", VStr id)] |}.

(** A store in use: an endpoint is selected, a preset is current, and
    headers, cookies, body and a path parameter are filled in. *)
Definition busy (current : string) : State :=
  {| inputs := {| urlState := UrlObject
                    {| pathname := "/users/:id";
                       href := "http://localhost:3000/users/:id";
                       filePath := "/srv/app.js";
                       presets := <["p1" := preset "p1"]> (<["p2" := preset "p2"]> ∅) |};
                  presetState := PresetObject (preset current);
                  methodState := "POST";
                  headerState := {| headers := [{| key := "Accept"; value := "text/html" |}] |};
                  cookieState := {| cookies := [{| key := "a"; value := "b" |}] |};
                  dataState := "{}";
                  paramState := [("id", "")] |};
     masterObject := {| domains := VObj []; serverPaths := VArr [];
                        rootDirectory := VStr "" |};
     requestResult := VObj [];
     validPort := VBool true;
     waiting := false;
     loading := true |}.

End Samples.

(** ** More sample data *)

Module Examples.
Import Store.

Definition preset_json : string :=
  "{" +:+ Samples.quoted "id" +:+ ":" +:+ Samples.quoted "p1" +:+ "}".

(** A [JSON.parse] that knows the one preset text above. *)
Definition parse_preset (text : string) : option Preset.t :=
  if String.eqb text preset_json then Some (Samples.preset "p1") else None.

Definition catalog : MasterObject :=
  {| domains := VObj [("localhost:3000", VObj [("urls", VObj [])])];
     serverPaths := VArr [VStr "/srv/app.js"];
     rootDirectory := VStr "/srv" |}.

End Examples.

(** * Properties *)

(** ** The correlation bridge *)

Section BridgeFacts.
Import Bridge.

Example reqId_sample : reqId_of (1, 2, 3, 4294967297)%N = "1-2-3-1".
Proof. vm_compute. reflexivity. Qed.

Lemma reqId_of_nonempty r : String.eqb (reqId_of r) "" = false.
Proof.
  destruct r as [[[a b] c] d]. unfold reqId_of. simpl.
  destruct (pretty (uint32 a)); reflexivity.
Qed.

Lemma vscodeFetch_promise r payload st :
  (vscodeFetch r payload st).1 = length (promises st).
Proof. reflexivity. Qed.

Lemma issue_cons r payload cs st :
  issue ((r, payload) :: cs) st
  = (length (promises st) :: (issue cs (vscodeFetch r payload st).2).1,
     (issue cs (vscodeFetch r payload st).2).2).
Proof. simpl. destruct (issue cs _). reflexivity. Qed.

Lemma deliver_cons m ms st :
  deliver (m :: ms) st
  = ((deliver ms (listener m st).1).1,
     (listener m st).2 :: (deliver ms (listener m st).1).2).
Proof. simpl. destruct (listener m st). destruct (deliver ms _). reflexivity. Qed.

(** What a batch of calls leaves behind. *)
Lemma issue_spec cs : ∀ st,
  (issue cs st).1 = seq (length (promises st)) (length cs) ∧
  promises (issue cs st).2 = promises st ++ replicate (length cs) Pending ∧
  settle_log (issue cs st).2 = settle_log st ∧
  (∀ k, k ∉ (λ c, reqId_of c.1) <$> cs →
        PENDING_REQUESTS (issue cs st).2 !! k = PENDING_REQUESTS st !! k) ∧
  (NoDup ((λ c, reqId_of c.1) <$> cs) →
   ∀ i c, cs !! i = Some c →
          PENDING_REQUESTS (issue cs st).2 !! reqId_of c.1
          = Some (length (promises st) + i)).
Proof.
  induction cs as [|[r payload] cs IH]; intros st.
  - simpl. rewrite app_nil_r. repeat split; auto. intros _ i c Hi. done.
  - destruct (IH (vscodeFetch r payload st).2) as (Hfs & Hps & Hlog & Hother & Hmine).
    rewrite issue_cons.
    set (st1 := (vscodeFetch r payload st).2) in *.
    assert (Hp1 : promises st1 = promises st ++ [Pending]) by reflexivity.
    assert (Hl1 : settle_log st1 = settle_log st) by reflexivity.
    assert (Ht1 : PENDING_REQUESTS st1
                  = <[reqId_of r := length (promises st)]> (PENDING_REQUESTS st))
      by reflexivity.
    clearbody st1. cbn [fst snd]. rewrite fmap_cons. cbn [length fst].
    rewrite Hp1, length_app in Hfs, Hmine. simpl in Hfs, Hmine.
    repeat split.
    + rewrite Hfs. simpl. do 2 f_equal. lia.
    + rewrite Hps, Hp1, <- app_assoc. reflexivity.
    + congruence.
    + intros k Hk. apply not_elem_of_cons in Hk as [Hne Hk].
      rewrite (Hother k Hk), Ht1. by rewrite lookup_insert_ne.
    + intros Hnd i c Hi. apply NoDup_cons in Hnd as [Hfresh Hnd].
      destruct i as [|i]; simpl in Hi.
      * injection Hi as <-. simpl.
        rewrite (Hother _ Hfresh), Ht1, lookup_insert_eq. f_equal. lia.
      * rewrite (Hmine Hnd i c Hi). f_equal. lia.
Qed.

(** A message whose identifier is in the table. *)
Lemma listener_hit m st r p :
  reqId m = Some r → String.eqb r "" = false →
  PENDING_REQUESTS st !! r = Some p →
  (listener m st).2 = Normal () ∧
  PENDING_REQUESTS (listener m st).1 = delete r (PENDING_REQUESTS st) ∧
  promises (listener m st).1
  = match promises st !! p with
    | Some Pending => <[p := outcome (data m) (err m)]> (promises st)
    | _ => promises st
    end ∧
  settle_log (listener m st).1 = settle_log st ++ [(p, outcome (data m) (err m))] ∧
  posted (listener m st).1 = posted st.
Proof.
  intros Hr Hne Hp. unfold listener, outcome. rewrite Hr, Hne, Hp. simpl.
  destruct (truthy (data m)); simpl; auto.
Qed.

(** A message whose identifier is not in the table. *)
Lemma listener_miss m st r :
  reqId m = Some r → String.eqb r "" = false →
  PENDING_REQUESTS st !! r = None →
  listener m st = (st, Throw TypeError).
Proof.
  intros Hr Hne Hp. unfold listener. rewrite Hr, Hne, Hp. simpl.
  rewrite (delete_id _ _ Hp). destruct st; simpl.
  destruct (truthy (data m)); reflexivity.
Qed.

(** A message without a usable identifier. *)
Lemma listener_no_reqId m st :
  reqId m = None ∨ reqId m = Some "" → listener m st = (st, Normal ()).
Proof. intros [H|H]; unfold listener; rewrite H; reflexivity. Qed.

Lemma in_flight_perm st xs ys : xs ≡ₚ ys → in_flight st xs → in_flight st ys.
Proof.
  intros Hp (Hf & Hi & Hx). repeat split.
  - by rewrite <- Hp.
  - by rewrite <- Hp.
  - apply Hx. by rewrite Hp.
  - apply Hx. by rewrite Hp.
Qed.

(** Replies delivered to exchanges that are all in flight. *)
Lemma deliver_in_flight xs : ∀ st,
  in_flight st xs →
  Forall (λ c, c = Normal ()) (deliver (reply_of <$> xs) st).2 ∧
  settle_log (deliver (reply_of <$> xs) st).1 = settle_log st ++ (settled_by <$> xs) ∧
  (∀ x, x ∈ xs →
        promises (deliver (reply_of <$> xs) st).1 !! x.1 = Some (settled_by x).2 ∧
        PENDING_REQUESTS (deliver (reply_of <$> xs) st).1 !! id_of x = None) ∧
  (∀ k, k ∉ id_of <$> xs →
        PENDING_REQUESTS (deliver (reply_of <$> xs) st).1 !! k
        = PENDING_REQUESTS st !! k) ∧
  (∀ n, n ∉ fst <$> xs →
        promises (deliver (reply_of <$> xs) st).1 !! n = promises st !! n).
Proof.
  induction xs as [|x xs IH]; intros st (Hf & Hi & Hx).
  - simpl. rewrite app_nil_r.
    split; [constructor|]. split; [done|].
    split; [intros y Hy; inversion Hy|]. split; done.
  - rewrite !fmap_cons in *. rewrite deliver_cons. cbn [fst snd].
    apply NoDup_cons in Hf as [Hfx Hf]. apply NoDup_cons in Hi as [Hix Hi].
    destruct (Hx x) as [Htx Hpx]; [left|].
    destruct (listener_hit (reply_of x) st (id_of x) x.1)
      as (Hc & Ht & Hp & Hl & _); [reflexivity|apply reqId_of_nonempty|exact Htx|].
    rewrite Hpx in Hp.
    set (st1 := (listener (reply_of x) st).1) in *. clearbody st1.
    assert (Hin : in_flight st1 xs).
    { split; [done|]. split; [done|]. intros y Hy.
      destruct (Hx y) as [Hty Hpy]; [by right|]. split.
      - rewrite Ht, lookup_delete_ne; [done|].
        intros E. apply Hix. rewrite E. by apply list_elem_of_fmap_2.
      - rewrite Hp, list_lookup_insert_ne; [done|].
        intros E. apply Hfx. rewrite E. by apply list_elem_of_fmap_2. }
    destruct (IH st1 Hin) as (Hcs & Hlog & Hmine & Hk & Hn).
    split; [constructor; assumption|].
    split; [rewrite Hlog, Hl, <- app_assoc; reflexivity|].
    split; [|split].
    + intros y Hy. apply elem_of_cons in Hy as [->|Hy]; [|by apply Hmine].
      split.
      * rewrite (Hn _ Hfx), Hp. apply list_lookup_insert_eq.
        by apply lookup_lt_Some in Hpx.
      * rewrite (Hk _ Hix), Ht. apply lookup_delete_eq.
    + intros k Hk'. apply not_elem_of_cons in Hk' as [Hne Hk'].
      rewrite (Hk _ Hk'), Ht. by rewrite lookup_delete_ne.
    + intros n Hn'. apply not_elem_of_cons in Hn' as [Hne Hn'].
      rewrite (Hn _ Hn'), Hp. by rewrite list_lookup_insert_ne.
Qed.

(** The exchanges made of a batch of calls and their future replies are
    all in flight once the calls are issued. *)
Lemma issue_in_flight st0 calls answers :
  NoDup ((λ c, reqId_of c.1) <$> calls) →
  length answers = length calls →
  in_flight (issue calls st0).2 (zip (issue calls st0).1 (zip calls answers)).
Proof.
  intros Hnd Hlen.
  destruct (issue_spec calls st0) as (Hfs & Hps & Hlog & Hother & Hmine).
  assert (Hlz : length (zip calls answers) = length calls).
  { rewrite length_zip_with. lia. }
  assert (Hlf : length (issue calls st0).1 = length calls).
  { rewrite Hfs. apply length_seq. }
  split; [|split].
  - rewrite fst_zip by lia. rewrite Hfs. apply NoDup_seq.
  - change id_of with ((λ c : rand4 * val, reqId_of c.1)
                         ∘ @fst (rand4 * val) (val * val)
                         ∘ @snd nat ((rand4 * val) * (val * val))).
    rewrite (list_fmap_compose (@snd nat ((rand4 * val) * (val * val)))).
    rewrite (list_fmap_compose (@fst (rand4 * val) (val * val))).
    rewrite snd_zip by lia. by rewrite fst_zip by lia.
  - intros [f [c [d e]]] Hx.
    apply list_elem_of_lookup in Hx as [i Hi].
    apply lookup_zip_with_Some in Hi as (f' & ca & Heq & Hf & Hca).
    apply lookup_zip_with_Some in Hca as (c' & a' & Heq' & Hc & Ha).
    simplify_eq. rewrite Hfs in Hf. apply lookup_seq in Hf as [-> Hi].
    unfold id_of. cbn [fst snd]. split.
    + by apply Hmine.
    + rewrite Hps, lookup_app_r by lia.
      apply lookup_replicate_2. lia.
Qed.

(** C1.  Correlation: calls with pairwise distinct identifiers are
    issued in the order of [calls]; their replies arrive in any order
    [arrival].  Every reply is handled without an exception and reaches
    the promise its own call returned: the calls made to the settle
    functions are exactly one per reply, in arrival order, each on the
    promise of the reply's call and with the reply's payload.  That
    promise was pending and ends with the outcome of its own reply, its
    table entry is gone afterwards, and a second reply for the same call
    finds no entry and settles nothing.  Promises and table entries that
    do not belong to the batch are left alone. *)
Theorem bridge_correlation (st0 : State) (calls : list (rand4 * val))
    (answers : list (val * val)) (arrival : list exchange) :
  NoDup ((λ c, reqId_of c.1) <$> calls) →
  length answers = length calls →
  arrival ≡ₚ zip (issue calls st0).1 (zip calls answers) →
  let st1 := (issue calls st0).2 in
  let st2 := (deliver (reply_of <$> arrival) st1).1 in
  Forall (λ c, c = Normal ()) (deliver (reply_of <$> arrival) st1).2 ∧
  settle_log st2 = settle_log st0 ++ (settled_by <$> arrival) ∧
  NoDup (fst <$> arrival) ∧
  (∀ x, x ∈ arrival →
        PENDING_REQUESTS st1 !! id_of x = Some x.1 ∧
        promises st1 !! x.1 = Some Pending ∧
        promises st2 !! x.1 = Some (outcome x.2.2.1 x.2.2.2) ∧
        PENDING_REQUESTS st2 !! id_of x = None ∧
        listener (reply_of x) st2 = (st2, Throw TypeError)) ∧
  (∀ n, n < length (promises st0) → promises st2 !! n = promises st0 !! n) ∧
  (∀ k, k ∉ (λ c, reqId_of c.1) <$> calls →
        PENDING_REQUESTS st2 !! k = PENDING_REQUESTS st0 !! k).
Proof.
  intros Hnd Hlen Hperm st1 st2.
  pose proof (issue_in_flight st0 calls answers Hnd Hlen) as Hin0.
  assert (Hin : in_flight st1 arrival).
  { eapply in_flight_perm; [symmetry; exact Hperm|exact Hin0]. }
  destruct (issue_spec calls st0) as (Hfs & Hps & Hlog & Hother & _).
  destruct (deliver_in_flight arrival st1 Hin) as (Hcs & Hl & Hmine & Hk & Hn).
  fold st2 in Hl, Hmine, Hk, Hn. fold st1 in Hps, Hlog, Hother.
  assert (Hids : id_of <$> arrival ≡ₚ (λ c, reqId_of c.1) <$> calls).
  { rewrite Hperm.
    change id_of with ((λ c : rand4 * val, reqId_of c.1)
                         ∘ @fst (rand4 * val) (val * val)
                         ∘ @snd nat ((rand4 * val) * (val * val))).
    rewrite (list_fmap_compose (@snd nat ((rand4 * val) * (val * val)))).
    rewrite (list_fmap_compose (@fst (rand4 * val) (val * val))).
    rewrite snd_zip, fst_zip; [done| |].
    - lia.
    - rewrite length_zip_with, Hfs, length_seq. lia. }
  assert (Hfuts : fst <$> arrival ≡ₚ seq (length (promises st0)) (length calls)).
  { rewrite Hperm, fst_zip; [by rewrite Hfs|].
    rewrite length_zip_with, Hfs, length_seq. lia. }
  split; [exact Hcs|]. split; [by rewrite Hl, Hlog|].
  split; [apply Hin|]. split; [|split].
  - intros x Hx. destruct Hin as (_ & _ & Hin).
    destruct (Hin x Hx) as [Ht Hp]. destruct (Hmine x Hx) as [Hp2 Ht2].
    repeat split; try assumption.
    apply (listener_miss _ _ (id_of x)); [reflexivity|apply reqId_of_nonempty|exact Ht2].
  - intros n Hlt. rewrite Hn, Hps, lookup_app_l; [done|lia|].
    rewrite Hfuts, elem_of_seq. lia.
  - intros k Hk'. rewrite Hk; [by apply Hother|]. by rewrite Hids.
Qed.

(** C1, on two calls A then B answered B then A. *)
Lemma bridge_correlation_witness :
  let A := ((1, 2, 3, 4)%N, VObj [("command", VStr "dataObjects")]) in
  let B := ((5, 6, 7, 8)%N, VObj [("command", VStr "validatePort"); ("data", VNum 3000)]) in
  let a := (VObj [("command", VStr "dataObjects"); ("data", VObj [])], VUndefined) in
  let b := (VUndefined, VStr "refused") in
  let st2 := (deliver [reply_to B b.1 b.2; reply_to A a.1 a.2] (issue [A; B] init).2).1 in
  settle_log st2 = [(1, Rejected (VStr "refused")); (0, Resolved a.1)] ∧
  promises st2 !! 0 = Some (Resolved a.1) ∧
  promises st2 !! 1 = Some (Rejected (VStr "refused")) ∧
  PENDING_REQUESTS st2 !! "1-2-3-4" = None ∧
  PENDING_REQUESTS st2 !! "5-6-7-8" = None.
Proof.
  intros A B a b st2.
  destruct (bridge_correlation init [A; B] [a; b] [(1, (B, b)); (0, (A, a))])
    as (_ & Hlog & _ & Hx & _).
  - apply (bool_decide_unpack _). vm_compute. exact I.
  - reflexivity.
  - apply perm_swap.
  - destruct (Hx (1, (B, b))) as (_ & _ & H1 & T1 & _); [apply list_elem_of_here|].
    destruct (Hx (0, (A, a))) as (_ & _ & H0 & T0 & _);
      [apply list_elem_of_further, list_elem_of_here|].
    split; [exact Hlog|]. split; [exact H0|]. split; [exact H1|].
    split; [exact T0|exact T1].
Defined.

Lemma vscodeFetch_consistent r payload st :
  consistent st → consistent (vscodeFetch r payload st).2.
Proof.
  intros Hst k p. cbn [vscodeFetch snd PENDING_REQUESTS promises].
  assert (Hold : ∀ k' q, PENDING_REQUESTS st !! k' = Some q → q < length (promises st)).
  { intros k' q Hq. destruct (Hst k' q Hq) as (_ & Hp & _).
    by apply lookup_lt_Some in Hp. }
  destruct (decide (k = reqId_of r)) as [->|Hne].
  - rewrite lookup_insert_eq. intros [= <-]. split; [|split].
    + apply String.eqb_neq, reqId_of_nonempty.
    + rewrite lookup_app_r by lia. by rewrite Nat.sub_diag.
    + intros k' Hk'. destruct (decide (k' = reqId_of r)) as [|Hne']; [done|].
      rewrite lookup_insert_ne in Hk' by done. apply Hold in Hk'. lia.
  - rewrite lookup_insert_ne by done. intros Hk.
    destruct (Hst k p Hk) as (Hk0 & Hp & Hinj). split; [done|]. split.
    + rewrite lookup_app_l; [done|]. by apply lookup_lt_Some in Hp.
    + intros k' Hk'. destruct (decide (k' = reqId_of r)) as [->|Hne'].
      * rewrite lookup_insert_eq in Hk'. injection Hk' as <-.
        apply Hold in Hk. lia.
      * rewrite lookup_insert_ne in Hk' by done. by apply Hinj.
Qed.

Lemma listener_consistent m st : consistent st → consistent (listener m st).1.
Proof.
  intros Hst.
  destruct (reqId m) as [r|] eqn:Hr;
    [|by rewrite listener_no_reqId by auto].
  destruct (String.eqb r "") eqn:Hne.
  { apply String.eqb_eq in Hne as ->. by rewrite listener_no_reqId by auto. }
  destruct (PENDING_REQUESTS st !! r) as [p|] eqn:Hp;
    [|by rewrite (listener_miss m st r)].
  destruct (listener_hit m st r p Hr Hne Hp) as (_ & Ht & Hps & _).
  destruct (Hst r p Hp) as (_ & Hpend & Hinj). rewrite Hpend in Hps.
  intros k q. rewrite Ht, Hps. intros Hk.
  apply lookup_delete_Some in Hk as [Hkr Hk].
  destruct (Hst k q Hk) as (Hk0 & Hq & Hinj'). split; [done|]. split.
  - rewrite list_lookup_insert_ne; [done|]. intros ->. apply Hkr. by apply Hinj'.
  - intros k' Hk'. apply lookup_delete_Some in Hk' as [_ Hk']. by apply Hinj'.
Qed.

Lemma reachable_consistent st : reachable st → consistent st.
Proof.
  induction 1 as [|r payload st _ IH|m st _ IH].
  - intros r p Hp. unfold init in Hp. simpl in Hp. by rewrite lookup_empty in Hp.
  - by apply vscodeFetch_consistent.
  - by apply listener_consistent.
Qed.

(** C10 (amended).  In every state the bridge can reach, a message whose
    [reqId] is in the table is handled without an exception: the entry is
    removed, and the promise it names, which was still pending, is
    resolved with the message's [data] when [data] is truthy and rejected
    with the message's [err] otherwise, by a single call. *)
Theorem listener_settles_by_truthiness (st : State) (m : Inbound) (r : string) (p : nat) :
  reachable st → reqId m = Some r → PENDING_REQUESTS st !! r = Some p →
  (listener m st).2 = Normal () ∧
  PENDING_REQUESTS (listener m st).1 = delete r (PENDING_REQUESTS st) ∧
  promises st !! p = Some Pending ∧
  promises (listener m st).1
  = <[p := if truthy (data m) then Resolved (data m) else Rejected (err m)]> (promises st) ∧
  settle_log (listener m st).1
  = settle_log st ++ [(p, if truthy (data m) then Resolved (data m) else Rejected (err m))].
Proof.
  intros Hst Hr Hp. apply reachable_consistent in Hst.
  destruct (Hst r p Hp) as (Hne & Hpend & _).
  apply String.eqb_neq in Hne.
  destruct (listener_hit m st r p Hr Hne Hp) as (Hc & Ht & Hps & Hl & _).
  rewrite Hpend in Hps. unfold outcome in *. auto.
Qed.

(** C10 (amended), on the reply to a single call. *)
Lemma listener_settles_by_truthiness_witness :
  let st := (vscodeFetch (1, 2, 3, 4)%N (VObj [("command", VStr "dataObjects")]) init).2 in
  let m := {| reqId := Some "1-2-3-4";
              data := VObj [("command", VStr "dataObjects"); ("data", VObj [])];
              err := VUndefined |} in
  promises (listener m st).1 = [Resolved (data m)] ∧
  PENDING_REQUESTS (listener m st).1 = delete "1-2-3-4" (PENDING_REQUESTS st).
Proof.
  intros st m.
  destruct (listener_settles_by_truthiness st m "1-2-3-4" 0) as (_ & Ht & _ & Hp & _).
  - apply reach_fetch, reach_init.
  - reflexivity.
  - reflexivity.
  - split; [exact Hp|exact Ht].
Defined.

(** C10 as stated fails: a reply whose [data] field is present but falsy
    rejects the promise with [err] and does not resolve it with [data]. *)
Lemma listener_rejects_present_falsy_data :
  let st := (vscodeFetch (1, 2, 3, 4)%N (VObj [("command", VStr "validatePort")]) init).2 in
  let m := {| reqId := Some "1-2-3-4"; data := VBool false; err := VStr "boom" |} in
  reachable st ∧
  PENDING_REQUESTS st !! "1-2-3-4" = Some 0 ∧
  present (data m) = true ∧
  promises (listener m st).1 !! 0 = Some (Rejected (VStr "boom")) ∧
  promises (listener m st).1 !! 0 ≠ Some (Resolved (data m)).
Proof.
  intros st m. split; [apply reach_fetch, reach_init|].
  repeat split; try reflexivity. discriminate.
Qed.

(** C2, at a duplicate reply: the first reply removes the entry, the
    second one has a [reqId] that is no longer in the table, and handling
    it throws a [TypeError] (the state is left as it was). *)
Theorem listener_throws_on_unknown_reqId :
  let m := {| reqId := Some "1-2-3-4";
              data := VObj [("command", VStr "dataObjects"); ("data", VObj [])];
              err := VUndefined |} in
  let st := (listener m (vscodeFetch (1, 2, 3, 4)%N
                           (VObj [("command", VStr "dataObjects")]) init).2).1 in
  reachable st ∧
  PENDING_REQUESTS st !! "1-2-3-4" = None ∧
  listener m st = (st, Throw TypeError).
Proof.
  intros m st. split; [apply reach_message, reach_fetch, reach_init|].
  split; [reflexivity|].
  apply (listener_miss m st "1-2-3-4"); reflexivity.
Qed.

End BridgeFacts.

(** ** The command router *)

Section RouterFacts.
Import Router.

Example router_dataObjects :
  onDidReceiveMessage (λ _ _, Fulfilled (VObj [("domains", VObj [])])) true
    {| reqId := VStr "1-2-3-4"; command := "dataObjects"; data := VUndefined |}
  = {| executed := [("extension.dataObjects", [])];
       sent := [VObj [("reqId", VStr "1-2-3-4");
                      ("data", VObj [("command", VStr "dataObjects");
                                     ("data", VObj [("domains", VObj [])])])]] |}.
Proof. reflexivity. Qed.

(** C3 as stated fails: when the operation of a correlated command is
    rejected, no reply envelope is sent at all. *)
Lemma router_silent_on_rejection :
  let msg := {| reqId := VStr "1-2-3-4"; command := "makeRequest"; data := VObj [] |} in
  let effects := onDidReceiveMessage (λ _ _, Rejected (VStr "ECONNREFUSED")) true msg in
  executed effects = [("extension.verboseRequest", [VObj []])] ∧ sent effects = [].
Proof. split; reflexivity. Qed.

(** C3 (amended).  For each of the seven commands [dataObjects],
    [parseServer], [deletePreset], [wipeStorageObject], [savePreset],
    [validatePort] and [makeRequest] one extension command is executed.
    With a current panel, when it is fulfilled with [e] exactly one
    envelope is sent back, carrying the original [reqId] and the data
    [{command, data: e}], for [savePreset] with an object [e] the data
    [{command, data: e.data, preset: e.preset}]; when it is rejected or
    never settles, or when there is no current panel, nothing is sent.
    Every other command gets no reply. *)
Theorem router_reply (executeCommand : string → list val → settlement) (msg : Msg) :
  (command msg ∈ correlated →
   ∃ ext args,
     executed (onDidReceiveMessage executeCommand true msg) = [(ext, args)] ∧
     sent (onDidReceiveMessage executeCommand false msg) = [] ∧
     match executeCommand ext args with
     | Fulfilled e =>
         if String.eqb (command msg) "savePreset" then
           ∀ fields, e = VObj fields →
             sent (onDidReceiveMessage executeCommand true msg)
             = [VObj [("reqId", reqId msg);
                      ("data", VObj [("command", VStr "savePreset");
                                     ("data", assoc "data" fields);
                                     ("preset", assoc "preset" fields)])]]
         else
           sent (onDidReceiveMessage executeCommand true msg)
           = [VObj [("reqId", reqId msg);
                    ("data", VObj [("command", VStr (command msg)); ("data", e)])]]
     | Rejected _ | Unsettled =>
         sent (onDidReceiveMessage executeCommand true msg) = []
     end) ∧
  (command msg ∉ correlated →
   ∀ currentPanel, sent (onDidReceiveMessage executeCommand currentPanel msg) = []).
Proof.
  destruct msg as [rid c d]. cbn [command reqId]. split.
  - unfold correlated. intros Hc.
    repeat (apply elem_of_cons in Hc as [->|Hc]); [..|by apply elem_of_nil in Hc];
      unfold onDidReceiveMessage, dispatch; cbn -[assoc];
      eexists _, _; (split; [reflexivity|]);
      (split; [destruct (executeCommand _ _); reflexivity|]);
      destruct (executeCommand _ _); try reflexivity.
    intros fields ->. reflexivity.
  - intros Hc currentPanel. unfold onDidReceiveMessage, dispatch. cbn [command].
    repeat match goal with
           | |- context [String.eqb c ?s] =>
               destruct (String.eqb_spec c s) as [->|_];
               [try (exfalso; apply Hc; unfold correlated; set_solver)|]
           end; reflexivity.
Qed.

(** C3 (amended), on a [savePreset] message. *)
Lemma router_reply_witness :
  let msg := {| reqId := VStr "9-8-7-6"; command := "savePreset";
                data := VObj [("name", VStr "mine")] |} in
  let host := λ (_ : string) (_ : list val),
                Fulfilled (VObj [("data", VObj [("domains", VObj [])]);
                                 ("preset", VObj [("id", VStr "p1")])]) in
  sent (onDidReceiveMessage host true msg)
  = [VObj [("reqId", VStr "9-8-7-6");
           ("data", VObj [("command", VStr "savePreset");
                          ("data", VObj [("domains", VObj [])]);
                          ("preset", VObj [("id", VStr "p1")])])]].
Proof.
  intros msg host.
  destruct (router_reply host msg) as [Hin _].
  destruct Hin as (ext & args & _ & _ & Hsent).
  - unfold correlated. cbn [command msg]. do 4 apply list_elem_of_further.
    apply list_elem_of_here.
  - cbn in Hsent. exact (Hsent _ eq_refl).
Defined.

End RouterFacts.

(** ** The request state store *)

Section StoreFacts.
Import Store.

Lemma count_content_type_from (hs : list Entry) : ∀ n : nat,
  (n ≤ fold_left (λ (n : nat) header,
                    if String.eqb (key header) "Content-Type" then S n else n) hs n)%nat ∧
  (fold_left (λ (n : nat) header,
                if String.eqb (key header) "Content-Type" then S n else n) hs n = n
   ↔ Forall (λ h, key h ≠ "Content-Type") hs).
Proof.
  induction hs as [|h hs IH]; intros n; simpl.
  - split; [lia|]. split; [constructor|done].
  - destruct (String.eqb_spec (key h) "Content-Type") as [E|E].
    + destruct (IH (S n)) as [Hle _]. split; [lia|]. split; [lia|].
      intros HF. apply Forall_cons in HF as [HF _]. done.
    + destruct (IH n) as [Hle Hiff]. split; [done|]. rewrite Hiff. split.
      * intros HF. by constructor.
      * intros HF. by apply Forall_cons in HF as [_ HF].
Qed.

Lemma count_content_type_0 hs :
  count_content_type hs = 0 ↔ Forall (λ h, key h ≠ "Content-Type") hs.
Proof. apply count_content_type_from. Qed.

(** C5.  [setDataState(body)] installs the body.  With a non-empty body
    and no header whose key is [Content-Type], the header list becomes
    the old one with the single header [Content-Type: application/json]
    put in front, in that same transition; with a [Content-Type] header
    already there, the header list, and so its length, is unchanged.
    Nothing else in the state changes. *)
Theorem setDataState_content_type
    (JSON_parse_url : string → option Url)
    (JSON_parse_preset : string → option Preset.t) (s : State) (body : string) :
  ∃ s', reducer JSON_parse_url JSON_parse_preset s (setDataState body) = Normal (s', []) ∧
    dataState (inputs s') = body ∧
    (body ≠ "" →
     Forall (λ h, key h ≠ "Content-Type") (headers (headerState (inputs s))) →
     headers (headerState (inputs s'))
     = {| key := "Content-Type"; value := "application/json" |}
       :: headers (headerState (inputs s))) ∧
    (Exists (λ h, key h = "Content-Type") (headers (headerState (inputs s))) →
     headers (headerState (inputs s')) = headers (headerState (inputs s)) ∧
     length (headers (headerState (inputs s')))
     = length (headers (headerState (inputs s)))) ∧
    s' = set_inputs (λ i, set_headerState (headerState (inputs s'))
                            (set_dataState body i)) s.
Proof.
  unfold reducer. cbn [set_inputs inputs set_dataState dataState headerState].
  destruct (count_content_type (headers (headerState (inputs s))) =? 0)%nat eqn:Hc.
  - apply Nat.eqb_eq, count_content_type_0 in Hc.
    destruct body as [|c body]; cbn [String.length Nat.ltb Nat.leb andb].
    + eexists. split; [reflexivity|]. cbn. split; [done|]. split; [done|].
      split; [|reflexivity]. intros Hex. split; reflexivity.
    + eexists. split; [reflexivity|]. cbn. split; [done|]. split; [done|].
      split; [|reflexivity]. intros Hex. exfalso.
      apply Exists_exists in Hex as (h & Hh & Hk).
      rewrite Forall_forall in Hc. by apply (Hc h).
  - apply Nat.eqb_neq in Hc. rewrite andb_false_r.
    eexists. split; [reflexivity|]. cbn. split; [done|]. split.
    + intros _ HF. by apply count_content_type_0 in HF.
    + split; [|reflexivity]. intros _. split; reflexivity.
Qed.

(** C5, on the empty header list and on a list holding a [Content-Type]
    header. *)
Lemma setDataState_content_type_witness :
  headers (headerState (inputs
    (dispatch Samples.parse_url Samples.parse_preset initialState (setDataState "{}"))))
  = [{| key := "Content-Type"; value := "application/json" |}] ∧
  length (headers (headerState (inputs
    (dispatch Samples.parse_url Samples.parse_preset
       (set_inputs (set_headerState
          {| headers := [{| key := "Content-Type"; value := "text/plain" |}] |})
          initialState)
       (setDataState "{}")))))
  = 1.
Proof.
  split.
  - destruct (setDataState_content_type Samples.parse_url Samples.parse_preset
                initialState "{}") as (s' & Hs & _ & Hadd & _).
    unfold dispatch. rewrite Hs. apply Hadd; [discriminate|constructor].
  - destruct (setDataState_content_type Samples.parse_url Samples.parse_preset
                (set_inputs (set_headerState
                   {| headers := [{| key := "Content-Type"; value := "text/plain" |}] |})
                   initialState) "{}") as (s' & Hs & _ & _ & Hkeep & _).
    unfold dispatch. rewrite Hs.
    destruct Hkeep as [_ Hlen]; [|exact Hlen]. by left.
Defined.

(** C6.  [setUrlState] with a payload other than ['default'] that
    parses to a url object installs that object as the url and leaves an
    empty header list, an empty cookie list, the empty body, no path
    parameters and the preset ['default'], whatever they were before; the
    method and everything outside the inputs are kept, and the editor is
    asked to open the url's file. *)
Theorem setUrlState_resets
    (JSON_parse_url : string → option Url)
    (JSON_parse_preset : string → option Preset.t)
    (s : State) (payload : string) (object : Url) :
  payload ≠ "default" →
  JSON_parse_url payload = Some object →
  ∃ s', reducer JSON_parse_url JSON_parse_preset s (setUrlState payload)
        = Normal (s', [openFileInEditor object]) ∧
    urlState (inputs s') = UrlObject object ∧
    headers (headerState (inputs s')) = [] ∧
    cookies (cookieState (inputs s')) = [] ∧
    dataState (inputs s') = "" ∧
    paramState (inputs s') = [] ∧
    presetState (inputs s') = PresetDefault ∧
    methodState (inputs s') = methodState (inputs s) ∧
    masterObject s' = masterObject s ∧ requestResult s' = requestResult s ∧
    validPort s' = validPort s ∧ waiting s' = waiting s ∧ loading s' = loading s.
Proof.
  intros Hnd Hparse. unfold reducer.
  apply String.eqb_neq in Hnd. rewrite Hnd, Hparse.
  eexists. split; [reflexivity|]. cbn. repeat split.
Qed.

(** C6, from a store whose headers, cookies, body and path parameters
    are all filled in. *)
Lemma setUrlState_resets_witness :
  let s := Samples.busy "p1" in
  let s' := dispatch Samples.parse_url Samples.parse_preset s
              (setUrlState Samples.url_json) in
  headers (headerState (inputs s)) ≠ [] ∧ cookies (cookieState (inputs s)) ≠ [] ∧
  dataState (inputs s) ≠ "" ∧ paramState (inputs s) ≠ [] ∧
  urlState (inputs s') = UrlObject Samples.url ∧
  headers (headerState (inputs s')) = [] ∧
  cookies (cookieState (inputs s')) = [] ∧
  dataState (inputs s') = "" ∧
  paramState (inputs s') = [] ∧
  presetState (inputs s') = PresetDefault.
Proof.
  intros s s'.
  destruct (setUrlState_resets Samples.parse_url Samples.parse_preset s
              Samples.url_json Samples.url)
    as (s1 & Hs & Hu & Hh & Hc & Hd & Hp & Hps & _).
  - discriminate.
  - reflexivity.
  - subst s'. unfold dispatch. rewrite Hs.
    repeat (split; [discriminate|]).
    repeat (split; [assumption|]). assumption.
Defined.

(** C8.  When [getMasterObject] completes with a reply whose result has
    no [domains], the cached master object keeps its [domains] and takes
    the result's [serverPaths] and [rootDirectory], and [loading] is what
    it was (so it remains true when it was true); when the result has
    [domains], the result becomes the master object and [loading] is
    false.  In both cases the rest of the state is untouched and the one
    call issued is [{command: 'dataObjects'}]. *)
Theorem getMasterObject_completion
    (JSON_parse_url : string → option Url)
    (JSON_parse_preset : string → option Preset.t)
    (s : State) (payload : Reply MasterObject) :
  let run := getMasterObject JSON_parse_url JSON_parse_preset (λ _, Resolves payload) s in
  fetched run = [VObj [("command", VStr "dataObjects")]] ∧
  dispatched run = [other "inputState/getMasterObject/pending";
                    getMasterObject_fulfilled payload] ∧
  inputs (final run) = inputs s ∧ requestResult (final run) = requestResult s ∧
  validPort (final run) = validPort s ∧ waiting (final run) = waiting s ∧
  (domains (data payload) = VUndefined →
   masterObject (final run)
   = {| domains := domains (masterObject s);
        serverPaths := serverPaths (data payload);
        rootDirectory := rootDirectory (data payload) |} ∧
   loading (final run) = loading s ∧
   (loading s = true → loading (final run) = true)) ∧
  (domains (data payload) ≠ VUndefined →
   masterObject (final run) = data payload ∧ loading (final run) = false).
Proof.
  intros run. subst run. unfold getMasterObject, conclude, dispatch, reducer.
  cbn [final dispatched fetched app].
  destruct (domains (data payload)) eqn:Hd; cbn; repeat split; try done.
Qed.

(** C8, on the partial catalog [{serverPaths: ["/x"], rootDirectory:
    "/root"}] arriving at the initial state. *)
Lemma getMasterObject_completion_witness :
  let partial := {| command := "dataObjects";
                    data := {| domains := VUndefined;
                               serverPaths := VArr [VStr "/x"];
                               rootDirectory := VStr "/root" |} |} in
  let run := getMasterObject Samples.parse_url Samples.parse_preset
               (λ _, Resolves partial) initialState in
  serverPaths (masterObject (final run)) = VArr [VStr "/x"] ∧
  rootDirectory (masterObject (final run)) = VStr "/root" ∧
  loading (final run) = true.
Proof.
  intros partial run.
  destruct (getMasterObject_completion Samples.parse_url Samples.parse_preset
              initialState partial) as (_ & _ & _ & _ & _ & _ & Hpartial & _).
  destruct Hpartial as (Hm & _ & Hl); [reflexivity|].
  subst run. rewrite Hm. split; [reflexivity|]. split; [reflexivity|].
  apply Hl. reflexivity.
Defined.

(** C7 as stated fails: the completion reducer never sees which preset
    the call deleted.  With preset [p2] current, a [deletePreset] call for
    [p1] leaves [p1] in the url's preset map and removes [p2]. *)
Lemma deletePreset_keeps_the_deleted_id :
  let s := Samples.busy "p2" in
  let payload := VObj [("command", VStr "deletePreset"); ("data", VStr "p1")] in
  let reply := {| command := "deletePreset";
                  data := {| domains := VObj []; serverPaths := VArr [];
                             rootDirectory := VStr "/root" |} |} in
  let run := vscApi Samples.parse_url Samples.parse_preset payload
               (λ _, Resolves reply) s in
  fetched run = [payload] ∧
  ∃ u, urlState (inputs (final run)) = UrlObject u ∧
       presets u !! "p1" = Some (Samples.preset "p1") ∧
       presets u !! "p2" = None.
Proof.
  intros s payload reply run. split; [reflexivity|].
  eexists. split; [reflexivity|]. split; reflexivity.
Qed.

(** C7 (amended).  When a [deletePreset] call made through [vscApi]
    completes while a url object is selected, the master object becomes
    the reply's data, [loading] is cleared, the current preset becomes
    ['default'], and the url's preset map loses the id of the preset that
    was current (the property named by [presetState.id]); every other id
    stays in the map. *)
Theorem vscApi_deletePreset
    (JSON_parse_url : string → option Url)
    (JSON_parse_preset : string → option Preset.t)
    (s : State) (u : Url) (payload : val) (reply : Reply MasterObject) :
  urlState (inputs s) = UrlObject u →
  command reply = "deletePreset" →
  let run := vscApi JSON_parse_url JSON_parse_preset payload (λ _, Resolves reply) s in
  let id := presetState_id (presetState (inputs s)) in
  fetched run = [payload] ∧
  masterObject (final run) = data reply ∧
  loading (final run) = false ∧
  presetState (inputs (final run)) = PresetDefault ∧
  urlState (inputs (final run)) = UrlObject (set_presets (delete id (presets u)) u) ∧
  (∀ p, presetState (inputs s) = PresetObject p →
        delete id (presets u) !! Preset.id p = None) ∧
  (∀ k, k ≠ id → delete id (presets u) !! k = presets u !! k) ∧
  headerState (inputs (final run)) = headerState (inputs s) ∧
  cookieState (inputs (final run)) = cookieState (inputs s) ∧
  dataState (inputs (final run)) = dataState (inputs s) ∧
  paramState (inputs (final run)) = paramState (inputs s) ∧
  methodState (inputs (final run)) = methodState (inputs s) ∧
  requestResult (final run) = requestResult s ∧
  validPort (final run) = validPort s ∧ waiting (final run) = waiting s.
Proof.
  intros Hu Hc run id. subst run.
  unfold vscApi, conclude, dispatch, reducer. rewrite Hc.
  cbn -[delete]. rewrite Hu. cbn -[delete]. fold id.
  repeat split; try reflexivity.
  - intros p Hp. subst id. rewrite Hp. cbn. apply lookup_delete_eq.
  - intros k Hk. by apply lookup_delete_ne.
Qed.

(** C7 (amended), on deleting the preset [p1] while it is current. *)
Lemma vscApi_deletePreset_witness :
  let s := Samples.busy "p1" in
  let payload := VObj [("command", VStr "deletePreset"); ("data", VStr "p1")] in
  let reply := {| command := "deletePreset";
                  data := {| domains := VObj []; serverPaths := VArr [];
                             rootDirectory := VStr "/root" |} |} in
  let run := vscApi Samples.parse_url Samples.parse_preset payload
               (λ _, Resolves reply) s in
  presetState (inputs (final run)) = PresetDefault ∧
  masterObject (final run) = data reply ∧
  ∃ u, urlState (inputs (final run)) = UrlObject u ∧ presets u !! "p1" = None.
Proof.
  intros s payload reply run.
  destruct (vscApi_deletePreset Samples.parse_url Samples.parse_preset s
              {| pathname := "/users/:id";
                 href := "http://localhost:3000/users/:id";
                 filePath := "/srv/app.js";
                 presets := <["p1" := Samples.preset "p1"]>
                              (<["p2" := Samples.preset "p2"]> ∅) |}
              payload reply)
    as (_ & Hm & _ & Hp & Hu & Hgone & _).
  - reflexivity.
  - reflexivity.
  - split; [exact Hp|]. split; [exact Hm|].
    eexists. split; [exact Hu|]. exact (Hgone _ eq_refl).
Defined.

Lemma blank_false (el : Entry) : blank el = false ↔ key el ≠ "" ∧ value el ≠ "".
Proof.
  unfold blank. rewrite orb_false_iff.
  by rewrite <- !String.eqb_neq.
Qed.

Lemma headersObject_from (hs : list Entry) (k : string) :
  (∀ h, h ∈ hs → blank h = false → key h ≠ k) →
  ∀ o : gmap string HeaderValue,
    fold_left (λ o el, if blank el then o else <[key el := Str (value el)]> o) hs o !! k
    = o !! k.
Proof.
  induction hs as [|h hs IH]; intros Hk o; [reflexivity|]. simpl.
  rewrite IH by (intros h' Hh'; apply Hk; by right).
  destruct (blank h) eqn:Hb; [reflexivity|].
  apply lookup_insert_ne. apply Hk; [by left|done].
Qed.

(** C9 as stated fails: with no cookie at all, a header row named
    [cookie] still puts a [cookie] key into the request's headers. *)
Lemma build_cookie_key_without_cookies :
  let i := set_headerState {| headers := [{| key := "cookie"; value := "a=b" |}] |}
             (inputs initialState) in
  cookies (cookieState i) = [] ∧
  cookiesArray (cookieState i) = [] ∧
  Request.headers (build i Samples.url) !! "cookie" = Some (Str "a=b").
Proof. repeat split. Qed.

(** C9 (amended).  The cookie list is made of the input cookies whose key
    and value are both non-empty, each as ["key = value"], in input order
    and with repetitions kept.  When no header row with a non-empty value
    is named [cookie]: the request's headers hold that list under
    [cookie] when it is not empty, and hold no [cookie] key at all when
    it is empty. *)
Theorem build_cookies (i : Inputs) (currentUrl : Url) :
  let cookie := cookiesArray (cookieState i) in
  cookie = concat ((λ c, if decide (key c ≠ "" ∧ value c ≠ "")
                         then [key c +:+ " = " +:+ value c] else [])
                   <$> cookies (cookieState i)) ∧
  ((∀ h, h ∈ headers (headerState i) → key h = "cookie" → value h = "") →
   (cookie ≠ [] → Request.headers (build i currentUrl) !! "cookie" = Some (Arr cookie)) ∧
   (cookie = [] → Request.headers (build i currentUrl) !! "cookie" = None)).
Proof.
  intros cookie. split.
  - subst cookie. unfold cookiesArray.
    induction (cookies (cookieState i)) as [|c cs IH]; [reflexivity|].
    rewrite fmap_cons. cbn [concat List.filter].
    destruct (decide (key c ≠ "" ∧ value c ≠ "")) as [Hc|Hc].
    + apply blank_false in Hc. rewrite Hc. cbn [negb map app]. by rewrite IH.
    + rewrite <- blank_false in Hc. apply not_false_is_true in Hc.
      rewrite Hc. cbn [negb app]. exact IH.
  - intros Hh.
    assert (Hnone : headersObject (headerState i) !! "cookie" = None).
    { unfold headersObject. rewrite headersObject_from; [apply lookup_empty|].
      intros h Hin Hb Hk. apply blank_false in Hb as [_ Hv]. by apply Hv, Hh. }
    cbn [build Request.headers]. fold cookie. unfold merge_headers.
    split; intros Hc.
    + destruct cookie as [|c cs]; [done|]. cbn [length Nat.ltb Nat.leb].
      rewrite lookup_union_r by exact Hnone. apply lookup_singleton_eq.
    + rewrite Hc. exact Hnone.
Qed.

(** C9 (amended), on cookies with a blank and a repeated row. *)
Lemma build_cookies_witness :
  let i := set_cookieState
             {| cookies := [{| key := "a"; value := "b" |}; {| key := ""; value := "x" |};
                            {| key := "a"; value := "b" |}] |}
             (inputs initialState) in
  Request.headers (build i Samples.url) !! "cookie" = Some (Arr ["a = b"; "a = b"]) ∧
  Request.headers (build (inputs initialState) Samples.url) !! "cookie" = None.
Proof.
  intros i. split.
  - destruct (build_cookies i Samples.url) as [_ H].
    destruct H as [H _]; [|apply H; discriminate].
    intros h Hh. apply elem_of_nil in Hh. done.
  - destruct (build_cookies (inputs initialState) Samples.url) as [_ H].
    destruct H as [_ H]; [|apply H; reflexivity].
    intros h Hh. apply elem_of_nil in Hh. done.
Defined.

(** C4 as stated fails: when the call is rejected no case of the slice
    runs, and [waiting] stays set. *)
Lemma makeRequest_rejected_keeps_waiting :
  let run := makeRequest Samples.parse_url Samples.parse_preset true
               (λ _, Rejects (VStr "ECONNREFUSED")) (Samples.busy "p1") in
  length (fetched run) = 1 ∧
  dispatched run = [other "inputState/makeRequest/pending"; setWaiting true;
                    other "inputState/makeRequest/rejected"] ∧
  waiting (final run) = true.
Proof. repeat split. Qed.

(** C4 (amended).  [makeRequest] first dispatches [setWaiting(true)].
    With the url ['default'] it then dispatches [setWaiting(false)] and
    returns: no call is issued and the final state is the initial one with
    [waiting] cleared.  When it gets as far as issuing the call, exactly
    that one call is issued with [waiting] set; a call that resolves with
    [d] ends with [d.data] in [requestResult] and [waiting] cleared, the
    rest being as it was while waiting; a call that is rejected or never
    answered leaves the state as it was while waiting. *)
Theorem makeRequest_flow
    (JSON_parse_url : string → option Url)
    (JSON_parse_preset : string → option Preset.t)
    (frozen : bool) (reply : Request.t → awaited (Reply val)) (s : State) :
  let run := makeRequest JSON_parse_url JSON_parse_preset frozen reply s in
  (urlState (inputs s) = UrlDefault →
   dispatched run = [other "inputState/makeRequest/pending"; setWaiting true;
                     setWaiting false; makeRequest_fulfilled None] ∧
   waiting (dispatch JSON_parse_url JSON_parse_preset s (setWaiting true)) = true ∧
   fetched run = [] ∧
   final run = set_waiting false s) ∧
  (∀ s1 actions request,
     makeRequest_creator JSON_parse_url JSON_parse_preset frozen s
     = (s1, actions, Awaiting request) →
     actions = [setWaiting true] ∧ waiting s1 = true ∧
     fetched run = [request] ∧
     match reply request with
     | Resolves d =>
         final run = set_waiting false (set_requestResult (data d) s1) ∧
         requestResult (final run) = data d ∧ waiting (final run) = false
     | Rejects _ | Stalls => final run = s1 ∧ waiting (final run) = true
     end).
Proof.
  intros run. subst run. unfold makeRequest.
  change (dispatch JSON_parse_url JSON_parse_preset s
            (other "inputState/makeRequest/pending")) with s.
  split.
  - intros Hu. unfold makeRequest_creator.
    change (inputs (dispatch JSON_parse_url JSON_parse_preset s (setWaiting true)))
      with (inputs s).
    rewrite Hu. cbn. repeat split.
  - intros s1 actions request Hc. rewrite Hc.
    unfold makeRequest_creator in Hc.
    change (inputs (dispatch JSON_parse_url JSON_parse_preset s (setWaiting true)))
      with (inputs s) in Hc.
    destruct (urlState (inputs s)) as [|u]; [discriminate|].
    destruct (insert_params frozen (paramState (inputs s)) u) as [u'|e];
      [|discriminate].
    injection Hc as <- <- <-.
    split; [reflexivity|]. split; [reflexivity|].
    destruct (reply _); cbn; repeat split.
Qed.

(** C4 (amended), on the initial state and on a store with an endpoint
    selected whose call resolves. *)
Lemma makeRequest_flow_witness :
  let answer := {| command := "makeRequest"; data := VObj [("status", VNum 200)] |} in
  final (makeRequest Samples.parse_url Samples.parse_preset true
           (λ _, Resolves answer) initialState)
  = set_waiting false initialState ∧
  requestResult (final (makeRequest Samples.parse_url Samples.parse_preset true
                          (λ _, Resolves answer) (Samples.busy "p1")))
  = VObj [("status", VNum 200)] ∧
  waiting (final (makeRequest Samples.parse_url Samples.parse_preset true
                    (λ _, Resolves answer) (Samples.busy "p1")))
  = false.
Proof.
  intros answer. split.
  - destruct (makeRequest_flow Samples.parse_url Samples.parse_preset true
                (λ _, Resolves answer) initialState) as [Hdefault _].
    destruct Hdefault as (_ & _ & _ & Hfinal); [reflexivity|exact Hfinal].
  - destruct (makeRequest_flow Samples.parse_url Samples.parse_preset true
                (λ _, Resolves answer) (Samples.busy "p1")) as [_ Hcall].
    destruct (Hcall _ _ _ eq_refl) as (_ & _ & _ & _ & Hr & Hw).
    split; [exact Hr|exact Hw].
Defined.

End StoreFacts.

(** ** Histories of the bridge *)

Section SessionFacts.
Import Bridge Session.

Lemma dashless_app (s t : string) :
  dashless (s +:+ t) = dashless s && dashless t.
Proof.
  induction s as [|c s IH]; [reflexivity|]. simpl. rewrite IH.
  by rewrite andb_assoc.
Qed.

Lemma dashless_pretty_N_go (x : N) : ∀ s,
  dashless s = true → dashless (pretty_N_go x s) = true.
Proof.
  induction (N.lt_wf_0 x) as [x _ IH]; intros s Hs.
  assert (x = 0 ∨ 0 < x)%N as [->|Hx] by lia.
  - by rewrite pretty_N_go_0.
  - rewrite pretty_N_go_step by done. apply IH; [by apply N.div_lt|].
    simpl. rewrite Hs, andb_true_r.
    unfold pretty_N_char. by repeat case_match.
Qed.

Lemma dashless_pretty (n : N) : dashless (pretty n) = true.
Proof.
  unfold pretty, pretty_N. case_decide; [reflexivity|].
  by apply dashless_pretty_N_go.
Qed.

(** Two texts split at their first dash agree part by part. *)
Lemma dash_split (d1 : string) : ∀ d2 t1 t2,
  dashless d1 = true → dashless d2 = true →
  d1 +:+ String "-" t1 = d2 +:+ String "-" t2 → d1 = d2 ∧ t1 = t2.
Proof.
  induction d1 as [|c d1 IH]; intros [|c' d2] t1 t2 H1 H2 E; simpl in *.
  - by injection E.
  - injection E as <- _. by rewrite Ascii.eqb_refl in H2.
  - injection E as -> _. by rewrite Ascii.eqb_refl in H1.
  - injection E as -> E. apply andb_true_iff in H1 as [_ H1].
    apply andb_true_iff in H2 as [_ H2].
    destruct (IH d2 t1 t2 H1 H2 E) as [-> ->]. done.
Qed.

(** X1.  The identifier determines the four random values it was made
    from: two quadruples get the same [reqId] exactly when they agree
    element by element as 32-bit values. *)
Theorem reqId_of_inj (a b c d a' b' c' d' : N) :
  reqId_of (a, b, c, d) = reqId_of (a', b', c', d')
  ↔ uint32 a = uint32 a' ∧ uint32 b = uint32 b'
    ∧ uint32 c = uint32 c' ∧ uint32 d = uint32 d'.
Proof.
  split.
  - unfold reqId_of. cbn [map String.concat]. intros E.
    apply dash_split in E as [Ea E]; [|apply dashless_pretty..].
    apply dash_split in E as [Eb E]; [|apply dashless_pretty..].
    apply dash_split in E as [Ec Ed]; [|apply dashless_pretty..].
    by repeat split; apply (inj pretty).
  - intros (Ea & Eb & Ec & Ed). unfold reqId_of. cbn [map].
    by rewrite Ea, Eb, Ec, Ed.
Qed.

(** The three ways a message can go: ignored, a miss, or a hit. *)
Lemma listener_cases (m : Inbound) (st : State) :
  listener m st = (st, Normal ())
  ∨ listener m st = (st, Throw TypeError)
  ∨ ∃ r q, reqId m = Some r ∧ PENDING_REQUESTS st !! r = Some q ∧
           PENDING_REQUESTS (listener m st).1 = delete r (PENDING_REQUESTS st) ∧
           promises (listener m st).1
           = match promises st !! q with
             | Some Pending => <[q := outcome (data m) (err m)]> (promises st)
             | _ => promises st
             end ∧
           settle_log (listener m st).1
           = settle_log st ++ [(q, outcome (data m) (err m))] ∧
           posted (listener m st).1 = posted st.
Proof.
  destruct (reqId m) as [r|] eqn:Hr; [|left; apply listener_no_reqId; auto].
  destruct (String.eqb r "") eqn:Hne.
  { apply String.eqb_eq in Hne as ->. left. apply listener_no_reqId. auto. }
  destruct (PENDING_REQUESTS st !! r) as [q|] eqn:Hq.
  - right. right. exists r, q.
    destruct (listener_hit m st r q Hr Hne Hq) as (_ & Ht & Hp & Hl & Hpo).
    repeat split; assumption.
  - right. left. by apply (listener_miss m st r).
Qed.

Lemma outcome_settled (d e : val) : outcome d e ≠ Pending.
Proof. unfold outcome. by destruct (truthy d). Qed.

Lemma reachable_run (es : list event) : ∀ st, reachable st → reachable (run es st).
Proof.
  induction es as [|[r payload|m] es IH]; intros st Hst; simpl; [done|..];
    apply IH; by constructor.
Qed.

(** X2.  In every state the bridge can reach, one message has been posted
    per promise handed out, and an entry of the table filed under [r]
    names the promise whose posted message carries [r]. *)
Theorem posted_matches_table (st : State) :
  reachable st →
  length (posted st) = length (promises st) ∧
  ∀ r p, PENDING_REQUESTS st !! r = Some p →
         ∃ payload, posted st !! p = Some {| out_reqId := r; out_payload := payload |}.
Proof.
  induction 1 as [|r payload st Hst [IHl IHt]|m st Hst [IHl IHt]].
  - split; [reflexivity|]. intros r p Hp. unfold init in Hp. simpl in Hp.
    by rewrite lookup_empty in Hp.
  - cbn [vscodeFetch snd posted promises PENDING_REQUESTS]. split.
    + rewrite !length_app. simpl. lia.
    + intros k p Hp. destruct (decide (k = reqId_of r)) as [->|Hne].
      * rewrite lookup_insert_eq in Hp. injection Hp as <-. exists payload.
        rewrite lookup_app_r by lia. by rewrite IHl, Nat.sub_diag.
      * rewrite lookup_insert_ne in Hp by done.
        destruct (IHt k p Hp) as [pl Hpl]. exists pl.
        rewrite lookup_app_l; [done|]. by apply lookup_lt_Some in Hpl.
  - destruct (listener_cases m st) as [E|[E|(r & q & _ & Hq & Ht & Hp & _ & Hpo)]];
      [rewrite E; by split..|].
    rewrite Hpo, Hp, Ht. split.
    + rewrite IHl. by repeat case_match; rewrite ?length_insert.
    + intros k p Hk. apply lookup_delete_Some in Hk as [_ Hk]. by apply IHt.
Qed.

(** X2, after two calls. *)
Lemma posted_matches_table_witness :
  let st := run [Fetch (1, 2, 3, 4)%N (VStr "a"); Fetch (5, 6, 7, 8)%N (VStr "b")] init in
  posted st !! 1 = Some {| out_reqId := "5-6-7-8"; out_payload := VStr "b" |}.
Proof.
  intros st.
  destruct (posted_matches_table st) as [_ H].
  - apply (reachable_run _ init), reach_init.
  - destruct (H "5-6-7-8" 1) as [payload Hp]; [reflexivity|].
    rewrite Hp. f_equal. cbn in Hp. by injection Hp as <-.
Defined.

(** X3.  In every state the bridge can reach, no promise has been the
    target of two calls to a settle function, and the promises that are
    settled are exactly those in the log of these calls, each holding the
    outcome of its one call. *)
Theorem settled_once (st : State) :
  reachable st →
  NoDup (fst <$> settle_log st) ∧
  ∀ p o, (p, o) ∈ settle_log st ↔ promises st !! p = Some o ∧ o ≠ Pending.
Proof.
  induction 1 as [|r payload st Hst [IHn IHl]|m st Hst [IHn IHl]].
  - split; [constructor|]. intros p o. split.
    + intros Hin. by apply elem_of_nil in Hin.
    + intros [Hp _]. done.
  - cbn [vscodeFetch snd promises settle_log]. split; [done|].
    intros p o. rewrite IHl. split.
    + intros [Hp Ho]. split; [|done]. rewrite lookup_app_l; [done|].
      by apply lookup_lt_Some in Hp.
    + intros [Hp Ho]. split; [|done].
      destruct (decide (p < length (promises st))) as [Hlt|Hge].
      * by rewrite lookup_app_l in Hp.
      * rewrite lookup_app_r in Hp by lia.
        destruct (p - length (promises st)) as [|n]; simpl in Hp; [|done].
        by injection Hp as <-.
  - destruct (listener_cases m st) as [E|[E|(r & q & _ & Hq & _ & Hp & Hl & _)]];
      [rewrite E; by split..|].
    apply reachable_consistent in Hst.
    destruct (Hst r q Hq) as (_ & Hpend & _).
    rewrite Hpend in Hp. rewrite Hp, Hl.
    assert (Hfresh : q ∉ fst <$> settle_log st).
    { intros Hin. apply list_elem_of_fmap in Hin as ([q' o] & -> & Hin).
      apply IHl in Hin as [Hin Ho]. simpl in Hpend. congruence. }
    split.
    + rewrite fmap_app. apply NoDup_app. split; [done|]. split.
      * intros p Hin Hp'. apply list_elem_of_singleton in Hp' as ->. done.
      * apply NoDup_singleton.
    + intros p o. rewrite elem_of_app, list_elem_of_singleton, IHl. split.
      * intros [[Hpo Ho]|[= -> ->]].
        -- split; [|done]. rewrite list_lookup_insert_ne; [done|].
           intros <-. congruence.
        -- split; [|apply outcome_settled].
           apply list_lookup_insert_eq. by apply lookup_lt_Some in Hpend.
      * intros [Hpo Ho]. destruct (decide (p = q)) as [->|Hne].
        -- right. rewrite list_lookup_insert_eq in Hpo
             by (by apply lookup_lt_Some in Hpend).
           by injection Hpo as <-.
        -- left. by rewrite list_lookup_insert_ne in Hpo.
Qed.

(** X3, after a call, its reply, and the same reply once more. *)
Lemma settled_once_witness :
  let m := {| reqId := Some "1-2-3-4"; data := VNum 7; err := VUndefined |} in
  let st := run [Fetch (1, 2, 3, 4)%N (VStr "a"); Message m; Message m] init in
  (0, Resolved (VNum 7)) ∈ settle_log st ∧ NoDup (fst <$> settle_log st).
Proof.
  intros m st.
  destruct (settled_once st) as [Hn Hl].
  - apply (reachable_run _ init), reach_init.
  - split; [|exact Hn]. apply Hl. split; [reflexivity|discriminate].
Defined.

Lemma step_keeps_orphan (e : event) (st : State) (p : nat) :
  promises st !! p = Some Pending →
  (∀ k, PENDING_REQUESTS st !! k ≠ Some p) →
  promises (step e st) !! p = Some Pending ∧
  ∀ k, PENDING_REQUESTS (step e st) !! k ≠ Some p.
Proof.
  intros Hp Hk. destruct e as [r payload|m]; simpl.
  - pose proof (lookup_lt_Some _ _ _ Hp) as Hlt. split.
    + by rewrite lookup_app_l.
    + intros k. destruct (decide (k = reqId_of r)) as [->|Hne].
      * rewrite lookup_insert_eq. intros [= E]. lia.
      * rewrite lookup_insert_ne by done. apply Hk.
  - destruct (listener_cases m st) as [E|[E|(r & q & _ & Hq & Ht & Hps & _)]];
      [by rewrite E..|].
    rewrite Hps, Ht. split.
    + assert (q ≠ p) by (intros ->; by apply (Hk r)).
      destruct (promises st !! q) as [[| |]|]; try done.
      by rewrite list_lookup_insert_ne.
    + intros k Hk'. apply lookup_delete_Some in Hk' as [_ Hk']. by apply (Hk k).
Qed.

(** X4.  When a second call draws the identifier of a call still in
    flight, its entry replaces the first one, and the promise of the first
    call stays pending whatever calls and messages follow. *)
Theorem collision_orphans_first_call
    (st : State) (r r' : rand4) (a b : val) (es : list event) :
  reachable st →
  reqId_of r = reqId_of r' →
  let p := (vscodeFetch r a st).1 in
  let st2 := (vscodeFetch r' b (vscodeFetch r a st).2).2 in
  PENDING_REQUESTS st2 !! reqId_of r = Some (S p) ∧
  promises (run es st2) !! p = Some Pending.
Proof.
  intros Hst Hr p st2. apply reachable_consistent in Hst.
  split.
  { subst st2 p. cbn [vscodeFetch fst snd PENDING_REQUESTS promises].
    rewrite Hr, lookup_insert_eq, length_app. simpl. f_equal. lia. }
  assert (Hp : promises st2 !! p = Some Pending
               ∧ ∀ k, PENDING_REQUESTS st2 !! k ≠ Some p).
  { subst st2 p. cbn [vscodeFetch fst snd PENDING_REQUESTS promises]. split.
    - rewrite lookup_app_l by (rewrite length_app; simpl; lia).
      rewrite lookup_app_r by lia. by rewrite Nat.sub_diag.
    - intros k. rewrite <- Hr, insert_insert_eq.
      destruct (decide (k = reqId_of r)) as [->|Hne].
      + rewrite lookup_insert_eq, length_app. simpl. intros [= E]. lia.
      + rewrite lookup_insert_ne by done. intros Hk.
        destruct (Hst k _ Hk) as (_ & Hpend & _).
        apply lookup_lt_Some in Hpend. lia. }
  clearbody st2 p. revert st2 Hp.
  induction es as [|e es IH]; intros st2 [Hp Hk]; [done|].
  simpl. apply IH. by apply step_keeps_orphan.
Qed.

(** X4, with the reply delivered twice after the collision. *)
Lemma collision_orphans_first_call_witness :
  let m := {| reqId := Some "1-2-3-4"; data := VNum 7; err := VUndefined |} in
  let st2 := run [Fetch (1, 2, 3, 4)%N (VStr "a"); Fetch (1, 2, 3, 4)%N (VStr "b")] init in
  PENDING_REQUESTS st2 !! "1-2-3-4" = Some 1 ∧
  promises (run [Message m; Message m] st2) !! 0 = Some Pending.
Proof.
  intros m st2.
  apply (collision_orphans_first_call init (1, 2, 3, 4)%N (1, 2, 3, 4)%N
           (VStr "a") (VStr "b") [Message m; Message m]).
  - apply reach_init.
  - reflexivity.
Defined.

(** X5.  A call that gets no reply is never given up: as long as no
    message bears its identifier and no later call draws it again, its
    entry stays in the table and its promise stays pending. *)
Theorem unanswered_call_stays (es : list event) (st : State) (r : string) (p : nat) :
  reachable st →
  PENDING_REQUESTS st !! r = Some p →
  Forall (away_from r) es →
  PENDING_REQUESTS (run es st) !! r = Some p ∧
  promises (run es st) !! p = Some Pending.
Proof.
  revert st. induction es as [|e es IH]; intros st Hst Hr Hes.
  - split; [done|]. apply reachable_consistent in Hst. by apply (Hst r p).
  - apply Forall_cons in Hes as [He Hes]. simpl. apply IH; [| |done].
    + destruct e; by constructor.
    + destruct e as [r0 payload|m]; simpl in *.
      * by rewrite lookup_insert_ne.
      * destruct (listener_cases m st) as [E|[E|(r0 & q & Hm & _ & Ht & _)]];
          [by rewrite E..|].
        rewrite Ht, lookup_delete_ne; [done|]. intros ->. done.
Qed.

(** X5, with the other of two calls answered. *)
Lemma unanswered_call_stays_witness :
  let st := run [Fetch (1, 2, 3, 4)%N (VStr "a"); Fetch (5, 6, 7, 8)%N (VStr "b")] init in
  let es := [Message {| reqId := Some "5-6-7-8"; data := VNum 7; err := VUndefined |};
             Message {| reqId := None; data := VNum 1; err := VUndefined |};
             Fetch (9, 9, 9, 9)%N (VStr "c")] in
  PENDING_REQUESTS (run es st) !! "1-2-3-4" = Some 0 ∧
  promises (run es st) !! 0 = Some Pending.
Proof.
  intros st es. apply unanswered_call_stays.
  - apply (reachable_run _ init), reach_init.
  - reflexivity.
  - repeat constructor; cbn; discriminate.
Defined.

End SessionFacts.

(** ** The two sides together *)

Section ChannelFacts.
Import Router.

(** Case analysis on the command of a message, one [case] at a time. *)
Ltac each_command c :=
  repeat match goal with
         | |- context [String.eqb c ?s] => destruct (String.eqb_spec c s) as [->|?]
         | H : context [String.eqb c ?s] |- _ => destruct (String.eqb_spec c s) as [->|?]
         end.

(** X6.  Whatever the message, the operations' outcomes and the panel:
    the handler executes at most one extension command and sends at most
    one message, and a message it sends carries the [reqId] and the
    command of the message handled, has an object as [data] and has no
    [err] field. *)
Theorem router_sends_only_data
    (executeCommand : string → list val → settlement) (currentPanel : bool) (msg : Msg) :
  (length (executed (onDidReceiveMessage executeCommand currentPanel msg)) ≤ 1)%nat ∧
  (length (sent (onDidReceiveMessage executeCommand currentPanel msg)) ≤ 1)%nat ∧
  ∀ v, v ∈ sent (onDidReceiveMessage executeCommand currentPanel msg) →
       ∃ fields, v = VObj [("reqId", reqId msg);
                           ("data", VObj (("command", VStr (command msg)) :: fields))].
Proof.
  destruct msg as [rid c d]. unfold onDidReceiveMessage, dispatch.
  cbn [command reqId data]. each_command c; cbn [executed sent length];
    (split; [lia|]);
    try (split; [lia|intros v Hv; by apply elem_of_nil in Hv]);
    destruct (executeCommand _ _) as [e| |];
    try (split; [simpl; lia|intros v Hv; by apply elem_of_nil in Hv]);
    unfold plain, with_preset, send, envelope; destruct currentPanel;
    try (split; [simpl; lia|intros v Hv; by apply elem_of_nil in Hv]);
    try (destruct e; cbn [get]);
    (split; [simpl; lia|]); cbn [reqId];
    intros v Hv; try (by apply elem_of_nil in Hv);
    apply list_elem_of_singleton in Hv as ->; eexists; reflexivity.
Qed.

(** X7.  A call for one of the seven commands that get a reply, whose
    operation is fulfilled with [e] while the panel exists, comes back
    resolved: the promise returned by [vscodeFetch] ends resolved with
    [{command, data: e}] (for [savePreset], with [e] an object,
    [{command, data: e.data, preset: e.preset}]), by the one call to its
    [resolve], and the entry filed for it is gone again, the other entries
    being untouched. *)
Theorem round_trip_resolves
    (executeCommand : string → list val → settlement) (r : Bridge.rand4)
    (fields rest : list (string * val)) (c : string) (e : val) (st : Bridge.State) :
  assoc "command" fields = VStr c →
  c ∈ correlated →
  Channel.operation executeCommand
    {| Bridge.out_reqId := Bridge.reqId_of r; Bridge.out_payload := VObj fields |}
  = Some (Fulfilled e) →
  (if String.eqb c "savePreset"
   then ∃ fs, e = VObj fs ∧ rest = [("data", assoc "data" fs); ("preset", assoc "preset" fs)]
   else rest = [("data", e)]) →
  ∃ st2,
    Channel.round_trip executeCommand true r (VObj fields) st
    = Some (length (Bridge.promises st), st2) ∧
    Bridge.promises st2
    = Bridge.promises st ++ [Bridge.Resolved (VObj (("command", VStr c) :: rest))] ∧
    Bridge.settle_log st2
    = Bridge.settle_log st
      ++ [(length (Bridge.promises st),
           Bridge.Resolved (VObj (("command", VStr c) :: rest)))] ∧
    Bridge.PENDING_REQUESTS st2 !! Bridge.reqId_of r = None ∧
    ∀ k, k ≠ Bridge.reqId_of r →
         Bridge.PENDING_REQUESTS st2 !! k = Bridge.PENDING_REQUESTS st !! k.
Proof.
  intros Hc Hin Hop Hrest.
  unfold Channel.round_trip, Channel.answers.
  unfold Channel.operation in Hop. unfold Channel.to_extension in *.
  cbn [Bridge.out_payload Bridge.out_reqId get] in *. rewrite Hc in *.
  cbn [Bridge.vscodeFetch].
  set (st1 := {| Bridge.PENDING_REQUESTS := _ |}).
  set (msg := {| reqId := _ |}) in *.
  assert (Hsent : sent (onDidReceiveMessage executeCommand true msg)
                  = [VObj [("reqId", VStr (Bridge.reqId_of r));
                           ("data", VObj (("command", VStr c) :: rest))]]).
  { unfold correlated in Hin.
    repeat (apply elem_of_cons in Hin as [->|Hin]); [..|by apply elem_of_nil in Hin];
      unfold onDidReceiveMessage; cbn in Hop |- *;
      injection Hop as Hop; rewrite Hop; cbn in Hrest |- *;
      try (by rewrite Hrest).
    destruct Hrest as (fs & -> & ->). reflexivity. }
  rewrite Hsent. cbn [Channel.receive Channel.to_webview assoc String.eqb Ascii.eqb
                        Bool.eqb].
  set (m := {| Bridge.reqId := _ |}).
  destruct (listener_hit m st1 (Bridge.reqId_of r) (length (Bridge.promises st)))
    as (_ & Ht & Hp & Hl & _); [reflexivity|apply reqId_of_nonempty| |].
  { subst st1. cbn. apply lookup_insert_eq. }
  eexists. split; [reflexivity|].
  rewrite Hp, Hl, Ht. subst st1 m. cbn [Bridge.promises Bridge.settle_log
    Bridge.PENDING_REQUESTS Bridge.data Bridge.err Bridge.outcome truthy].
  rewrite lookup_app_r by lia. rewrite Nat.sub_diag. cbn [lookup list_lookup].
  split.
  { rewrite insert_app_r_alt by lia. by rewrite Nat.sub_diag. }
  split; [reflexivity|]. split; [apply lookup_delete_eq|].
  intros k Hk. rewrite lookup_delete_ne by done. by rewrite lookup_insert_ne.
Qed.

(** X7, on a [validatePort] call. *)
Lemma round_trip_resolves_witness :
  ∃ st2,
    Channel.round_trip (λ _ _, Fulfilled (VBool true)) true (1, 2, 3, 4)%N
      (VObj [("command", VStr "validatePort"); ("data", VNum 3000)]) Bridge.init
    = Some (0, st2) ∧
    Bridge.promises st2
    = [Bridge.Resolved (VObj [("command", VStr "validatePort"); ("data", VBool true)])].
Proof.
  destruct (round_trip_resolves (λ _ _, Fulfilled (VBool true)) (1, 2, 3, 4)%N
              [("command", VStr "validatePort"); ("data", VNum 3000)]
              [("data", VBool true)] "validatePort" (VBool true) Bridge.init)
    as (st2 & Hrt & Hp & _).
  - reflexivity.
  - unfold correlated. do 5 apply list_elem_of_further. apply list_elem_of_here.
  - reflexivity.
  - reflexivity.
  - exists st2. split; [exact Hrt|exact Hp].
Defined.

(** X8.  A call gets nothing back when there is no panel, or when the
    router awaits no operation for it or the operation is not fulfilled
    (rejected, never settled, a command without reply, an unknown
    command): the promise returned is left pending with its entry in the
    table. *)
Theorem round_trip_stalls
    (executeCommand : string → list val → settlement) (currentPanel : bool)
    (r : Bridge.rand4) (payload : val) (st : Bridge.State) :
  currentPanel = false
  ∨ (∀ e, Channel.operation executeCommand
            {| Bridge.out_reqId := Bridge.reqId_of r; Bridge.out_payload := payload |}
          ≠ Some (Fulfilled e)) →
  Channel.round_trip executeCommand currentPanel r payload st
  = Some (Bridge.vscodeFetch r payload st) ∧
  Bridge.PENDING_REQUESTS (Bridge.vscodeFetch r payload st).2 !! Bridge.reqId_of r
  = Some (Bridge.vscodeFetch r payload st).1 ∧
  Bridge.promises (Bridge.vscodeFetch r payload st).2
  !! (Bridge.vscodeFetch r payload st).1 = Some Bridge.Pending.
Proof.
  intros H. split.
  - unfold Channel.round_trip, Channel.answers, Channel.operation in *.
    cbn [Bridge.vscodeFetch].
    destruct (Channel.to_extension _) as [[rid c d]|]; [|reflexivity].
    unfold onDidReceiveMessage, dispatch in *. cbn [command] in *.
    each_command c; cbn [sent] in *; try reflexivity;
      (destruct (executeCommand _ _) as [e| |]; [|reflexivity..]);
      (destruct H as [->|H]; [|by destruct (H e)]);
      reflexivity.
  - cbn [Bridge.vscodeFetch fst snd Bridge.PENDING_REQUESTS Bridge.promises].
    split; [apply lookup_insert_eq|].
    rewrite lookup_app_r by lia. by rewrite Nat.sub_diag.
Qed.

(** X8, on a request the host fails to perform. *)
Lemma round_trip_stalls_witness :
  Channel.round_trip (λ _ _, Rejected (VStr "ECONNREFUSED")) true (1, 2, 3, 4)%N
    (VObj [("command", VStr "makeRequest"); ("data", VObj [])]) Bridge.init
  = Some (0, (Bridge.vscodeFetch (1, 2, 3, 4)%N
                (VObj [("command", VStr "makeRequest"); ("data", VObj [])])
                Bridge.init).2).
Proof.
  apply (round_trip_stalls (λ _ _, Rejected (VStr "ECONNREFUSED")) true).
  right. intros e. discriminate.
Defined.

End ChannelFacts.

(** ** More on the request state store *)

Section InputFacts.
Import Store Params.



Lemma count_content_type_cons (h : Entry) (hs : list Entry) :
  key h = "Content-Type" → count_content_type (h :: hs) ≠ 0.
Proof.
  intros Hk Hc. apply count_content_type_0 in Hc.
  apply Forall_cons in Hc as [Hc _]. done.
Qed.

(** X10.  Dispatching [setDataState] with the same body a second time
    changes nothing more; the transition never drops or reorders a header
    (the old list is the tail of the new one), and after it a non-empty
    body always comes with a [Content-Type] header. *)
Theorem setDataState_settles
    (JSON_parse_url : string → option Url)
    (JSON_parse_preset : string → option Preset.t)
    (s : State) (body : string) :
  let s1 := dispatch JSON_parse_url JSON_parse_preset s (setDataState body) in
  dispatch JSON_parse_url JSON_parse_preset s1 (setDataState body) = s1 ∧
  (∃ added, headers (headerState (inputs s1))
            = added ++ headers (headerState (inputs s))
            ∧ (length added ≤ 1)%nat) ∧
  (body = "" ∨ Exists (λ h, key h = "Content-Type") (headers (headerState (inputs s1)))).
Proof.
  destruct s as [[u ps me [hs] cs ds pm] m rr vp w l].
  assert (Hadded : (count_content_type
                      ({| key := "Content-Type"; value := "application/json" |} :: hs)
                    =? 0)%nat = false).
  { apply Nat.eqb_neq. by apply count_content_type_cons. }
  unfold dispatch, reducer. cbn -[count_content_type].
  destruct (count_content_type hs =? 0)%nat eqn:Hc.
  - destruct body as [|c body]; cbn -[count_content_type].
    + split; [reflexivity|]. split; [exists []; split; [reflexivity|simpl; lia]|by left].
    + rewrite Hadded. cbn. split; [reflexivity|]. split.
      * eexists [_]. split; [reflexivity|simpl; lia].
      * right. by left.
  - rewrite andb_false_r. cbn -[count_content_type]. rewrite Hc, andb_false_r. cbn.
    split; [reflexivity|]. split; [exists []; split; [reflexivity|simpl; lia]|].
    right. apply Nat.eqb_neq in Hc.
    destruct (decide (Exists (λ h, key h = "Content-Type") hs)) as [|Hn]; [done|].
    exfalso. apply Hc, count_content_type_0.
    apply Forall_forall. intros h Hh Hk. apply Hn, Exists_exists. eauto.
Qed.

End InputFacts.

Section PresetFacts.
Import Store.

(** X11.  Saving a preset and then deleting it while it is current puts
    the url's preset map back: after [savePreset] completes the preset
    returned is current and filed under its id, the other ids being as
    before; after the [deletePreset] call completes, the url is exactly
    what it was before the save (for an id that was not in the map), no
    preset is current, and the master object is the one of the last
    reply.  The call made by [savePreset] carries the name and the
    current url, headers, cookies and body. *)
Theorem save_then_delete_restores
    (JSON_parse_url : string → option Url)
    (JSON_parse_preset : string → option Preset.t)
    (s : State) (u : Url) (name : string) (payload : val)
    (saved : Reply MasterObject) (preset : Preset.t) (deleted : Reply MasterObject) :
  urlState (inputs s) = UrlObject u →
  presets u !! Preset.id preset = None →
  command deleted = "deletePreset" →
  let save := Thunks.savePreset JSON_parse_url JSON_parse_preset name
                (λ _, Resolves (saved, preset)) s in
  let s2 := final (vscApi JSON_parse_url JSON_parse_preset payload
                     (λ _, Resolves deleted) (final save)) in
  fetched save = [{| Thunks.Draft.name := name;
                     Thunks.Draft.urlState := urlState (inputs s);
                     Thunks.Draft.headerState := headerState (inputs s);
                     Thunks.Draft.cookieState := cookieState (inputs s);
                     Thunks.Draft.dataState := dataState (inputs s) |}] ∧
  presetState (inputs (final save)) = PresetObject preset ∧
  masterObject (final save) = data saved ∧
  (∃ u1, urlState (inputs (final save)) = UrlObject u1 ∧
         presets u1 !! Preset.id preset = Some preset ∧
         ∀ k, k ≠ Preset.id preset → presets u1 !! k = presets u !! k) ∧
  urlState (inputs s2) = UrlObject u ∧
  presetState (inputs s2) = PresetDefault ∧
  masterObject s2 = data deleted.
Proof.
  intros Hu Hfresh Hc save s2. subst s2 save.
  unfold Thunks.savePreset, vscApi, conclude, dispatch, reducer.
  rewrite Hc. cbn -[delete insert]. rewrite Hu. cbn -[delete insert].
  split; [reflexivity|]. split; [reflexivity|]. split; [reflexivity|].
  split.
  - eexists. split; [reflexivity|]. cbn -[insert]. split.
    + apply lookup_insert_eq.
    + intros k Hk. by apply lookup_insert_ne.
  - split; [|split; reflexivity].
    rewrite delete_insert_eq, (delete_id _ _ Hfresh). by destruct u.
Qed.

(** X11, saving and deleting a third preset of the sample store. *)
Lemma save_then_delete_restores_witness :
  let s := Samples.busy "p1" in
  let save := Thunks.savePreset Samples.parse_url Samples.parse_preset "mine"
                (λ _, Resolves ({| command := "savePreset"; data := Examples.catalog |},
                                Samples.preset "p3")) s in
  let s2 := final (vscApi Samples.parse_url Samples.parse_preset
                     (VObj [("command", VStr "deletePreset"); ("data", VStr "p3")])
                     (λ _, Resolves {| command := "deletePreset";
                                       data := Examples.catalog |})
                     (final save)) in
  presetState (inputs (final save)) = PresetObject (Samples.preset "p3") ∧
  urlState (inputs s2) = urlState (inputs s).
Proof.
  intros s save s2.
  destruct (save_then_delete_restores Samples.parse_url Samples.parse_preset s
              {| pathname := "/users/:id";
                 href := "http://localhost:3000/users/:id";
                 filePath := "/srv/app.js";
                 presets := <["p1" := Samples.preset "p1"]>
                              (<["p2" := Samples.preset "p2"]> ∅) |}
              "mine"
              (VObj [("command", VStr "deletePreset"); ("data", VStr "p3")])
              {| command := "savePreset"; data := Examples.catalog |}
              (Samples.preset "p3")
              {| command := "deletePreset"; data := Examples.catalog |})
    as (_ & Hp & _ & _ & Hu & _).
  - reflexivity.
  - reflexivity.
  - reflexivity.
  - split; [exact Hp|exact Hu].
Defined.

(** X12.  With no endpoint selected (the url is ['default']), the
    completion of [savePreset] and of a [deletePreset] call throws a
    [TypeError] in the reducer, and the store is left exactly as it was:
    not even the master object of the reply is taken. *)
Theorem preset_completion_without_url
    (JSON_parse_url : string → option Url)
    (JSON_parse_preset : string → option Preset.t)
    (s : State) (name : string) (payload : val)
    (saved : Reply MasterObject) (preset : Preset.t) (deleted : Reply MasterObject) :
  urlState (inputs s) = UrlDefault →
  command deleted = "deletePreset" →
  reducer JSON_parse_url JSON_parse_preset s (savePreset_fulfilled saved preset)
  = Throw TypeError ∧
  reducer JSON_parse_url JSON_parse_preset s (vscApi_fulfilled deleted)
  = Throw TypeError ∧
  final (Thunks.savePreset JSON_parse_url JSON_parse_preset name
           (λ _, Resolves (saved, preset)) s) = s ∧
  final (vscApi JSON_parse_url JSON_parse_preset payload (λ _, Resolves deleted) s) = s.
Proof.
  intros Hu Hc.
  unfold Thunks.savePreset, vscApi, conclude, dispatch, reducer.
  rewrite Hc. cbn. rewrite Hu. cbn. repeat split.
Qed.

(** X12, on the initial state. *)
Lemma preset_completion_without_url_witness :
  final (vscApi Samples.parse_url Samples.parse_preset
           (VObj [("command", VStr "deletePreset"); ("data", VStr "p1")])
           (λ _, Resolves {| command := "deletePreset"; data := Examples.catalog |})
           initialState)
  = initialState.
Proof.
  apply (preset_completion_without_url Samples.parse_url Samples.parse_preset
           initialState "mine" _ {| command := "savePreset"; data := Examples.catalog |}
           (Samples.preset "p1")); reflexivity.
Defined.

End PresetFacts.

Section TransitionFacts.
Import Store.

(** X13.  [setUrlState('default')] only forgets the endpoint: headers,
    cookies, body, path parameters, preset and method stay as they are
    and nothing is posted.  A payload that is neither ['default'] nor
    parsable makes the reducer throw a [SyntaxError], and the store is
    left as it was. *)
Theorem setUrlState_edges
    (JSON_parse_url : string → option Url)
    (JSON_parse_preset : string → option Preset.t) (s : State) (payload : string) :
  (∃ s', reducer JSON_parse_url JSON_parse_preset s (setUrlState "default")
         = Normal (s', []) ∧
     urlState (inputs s') = UrlDefault ∧
     s' = set_inputs (set_urlState UrlDefault) s ∧
     headerState (inputs s') = headerState (inputs s) ∧
     cookieState (inputs s') = cookieState (inputs s) ∧
     dataState (inputs s') = dataState (inputs s) ∧
     paramState (inputs s') = paramState (inputs s) ∧
     presetState (inputs s') = presetState (inputs s)) ∧
  (payload ≠ "default" → JSON_parse_url payload = None →
   reducer JSON_parse_url JSON_parse_preset s (setUrlState payload) = Throw SyntaxError ∧
   dispatch JSON_parse_url JSON_parse_preset s (setUrlState payload) = s).
Proof.
  split.
  - eexists. split; [reflexivity|]. repeat split.
  - intros Hd Hp. apply String.eqb_neq in Hd.
    unfold dispatch, reducer. rewrite Hd, Hp. split; reflexivity.
Qed.

(** X13, on a text that is no JSON. *)
Lemma setUrlState_edges_witness :
  dispatch Samples.parse_url Samples.parse_preset (Samples.busy "p1")
    (setUrlState "{oops") = Samples.busy "p1".
Proof.
  apply (setUrlState_edges Samples.parse_url Samples.parse_preset); [discriminate|reflexivity].
Defined.

(** X14.  [setCurrentPreset('default')] is [resetInputs]: it keeps the
    url and the method and empties headers, cookies, body, path
    parameters and preset, and doing it twice is doing it once; selecting
    an endpoint is the same reset followed by installing the url.  A
    payload that parses to a preset makes it current and takes its
    headers, cookies and body, keeping url, method and path parameters;
    one that does not parse throws a [SyntaxError] and changes
    nothing. *)
Theorem setCurrentPreset_cases
    (JSON_parse_url : string → option Url)
    (JSON_parse_preset : string → option Preset.t) (s : State) (payload : string) :
  let reset := dispatch JSON_parse_url JSON_parse_preset s (setCurrentPreset "default") in
  (reset = resetInputs s ∧
   urlState (inputs reset) = urlState (inputs s) ∧
   methodState (inputs reset) = methodState (inputs s) ∧
   dispatch JSON_parse_url JSON_parse_preset reset (setCurrentPreset "default") = reset) ∧
  (∀ object, payload ≠ "default" → JSON_parse_url payload = Some object →
     dispatch JSON_parse_url JSON_parse_preset s (setUrlState payload)
     = set_inputs (set_urlState (UrlObject object)) reset) ∧
  (∀ p, payload ≠ "default" → JSON_parse_preset payload = Some p →
     ∃ s', reducer JSON_parse_url JSON_parse_preset s (setCurrentPreset payload)
           = Normal (s', []) ∧
       presetState (inputs s') = PresetObject p ∧
       headerState (inputs s') = Preset.headerState p ∧
       cookieState (inputs s') = Preset.cookieState p ∧
       dataState (inputs s') = Preset.dataState p ∧
       urlState (inputs s') = urlState (inputs s) ∧
       methodState (inputs s') = methodState (inputs s) ∧
       paramState (inputs s') = paramState (inputs s) ∧
       masterObject s' = masterObject s ∧ requestResult s' = requestResult s ∧
       validPort s' = validPort s ∧ waiting s' = waiting s ∧ loading s' = loading s) ∧
  (payload ≠ "default" → JSON_parse_preset payload = None →
   reducer JSON_parse_url JSON_parse_preset s (setCurrentPreset payload) = Throw SyntaxError ∧
   dispatch JSON_parse_url JSON_parse_preset s (setCurrentPreset payload) = s).
Proof.
  intros reset. subst reset. split; [repeat split|]. split; [|split].
  - intros object Hd Hp. apply String.eqb_neq in Hd.
    unfold dispatch, reducer. rewrite Hd, Hp. reflexivity.
  - intros p Hd Hp. apply String.eqb_neq in Hd.
    unfold reducer. rewrite Hd, Hp. eexists. split; [reflexivity|]. repeat split.
  - intros Hd Hp. apply String.eqb_neq in Hd.
    unfold dispatch, reducer. rewrite Hd, Hp. split; reflexivity.
Qed.

(** X14, on the sample store: a preset text, an endpoint text and a text
    that is no JSON. *)
Lemma setCurrentPreset_cases_witness :
  let s := Samples.busy "p2" in
  presetState (inputs (dispatch Samples.parse_url Examples.parse_preset s
                         (setCurrentPreset Examples.preset_json)))
  = PresetObject (Samples.preset "p1") ∧
  paramState (inputs (dispatch Samples.parse_url Examples.parse_preset s
                        (setCurrentPreset Examples.preset_json)))
  = [("id", "")] ∧
  dispatch Samples.parse_url Examples.parse_preset s (setUrlState Samples.url_json)
  = set_inputs (set_urlState (UrlObject Samples.url)) (resetInputs s) ∧
  dispatch Samples.parse_url Examples.parse_preset s (setCurrentPreset "{oops") = s.
Proof.
  intros s.
  destruct (setCurrentPreset_cases Samples.parse_url Examples.parse_preset s
              Examples.preset_json) as (_ & _ & Hsome & _).
  destruct (Hsome (Samples.preset "p1")) as (s' & Hs' & Hp & _ & _ & _ & _ & _ & Hpm & _);
    [discriminate|reflexivity|].
  destruct (setCurrentPreset_cases Samples.parse_url Examples.parse_preset s
              Samples.url_json) as (_ & Hurl & _ & _).
  destruct (setCurrentPreset_cases Samples.parse_url Examples.parse_preset s
              "{oops") as (_ & _ & _ & Hnone).
  unfold dispatch at 1 2. rewrite Hs'.
  split; [exact Hp|]. split; [exact Hpm|]. split.
  - apply Hurl; [discriminate|reflexivity].
  - apply Hnone; [discriminate|reflexivity].
Defined.

(** X15.  The completion of a [vscApi] call for any command other than
    [wipeStorageObject] and [deletePreset] takes the reply's data as the
    master object as it is, with or without [domains], clears [loading]
    and touches nothing else. *)
Theorem vscApi_replaces_master_object
    (JSON_parse_url : string → option Url)
    (JSON_parse_preset : string → option Preset.t)
    (s : State) (payload : val) (reply : Reply MasterObject) :
  command reply ≠ "wipeStorageObject" →
  command reply ≠ "deletePreset" →
  let run := vscApi JSON_parse_url JSON_parse_preset payload (λ _, Resolves reply) s in
  fetched run = [payload] ∧
  final run = set_loading false (set_masterObject (data reply) s) ∧
  masterObject (final run) = data reply ∧
  loading (final run) = false ∧
  inputs (final run) = inputs s.
Proof.
  intros Hw Hd run. subst run.
  apply String.eqb_neq in Hw. apply String.eqb_neq in Hd.
  unfold vscApi, conclude, dispatch, reducer. rewrite Hw, Hd. cbn. repeat split.
Qed.

(** X15, on a [parseServer] reply that has no [domains]. *)
Lemma vscApi_replaces_master_object_witness :
  let partial := {| domains := VUndefined; serverPaths := VArr [VStr "/x"];
                    rootDirectory := VStr "/root" |} in
  masterObject (final (vscApi Samples.parse_url Samples.parse_preset
                         (VObj [("command", VStr "parseServer"); ("data", VStr "/root")])
                         (λ _, Resolves {| command := "parseServer"; data := partial |})
                         initialState))
  = partial.
Proof.
  intros partial.
  apply (vscApi_replaces_master_object Samples.parse_url Samples.parse_preset
           initialState _ {| command := "parseServer"; data := partial |});
    discriminate.
Defined.

(** X16.  Wiping the storage never touches the cached master object or
    the inputs.  The [wipeStorageObject] thunk sets [loading] and nothing
    clears it again, however the call ends; a [vscApi] call whose reply
    is for the command [wipeStorageObject] leaves the whole store as it
    was. *)
Theorem wiping_keeps_the_store
    (JSON_parse_url : string → option Url)
    (JSON_parse_preset : string → option Preset.t)
    (s : State) (payload : val) (reply : val → awaited val) (m : MasterObject) :
  final (Thunks.wipeStorageObject JSON_parse_url JSON_parse_preset payload reply s)
  = set_loading true s ∧
  fetched (Thunks.wipeStorageObject JSON_parse_url JSON_parse_preset payload reply s)
  = [payload] ∧
  final (vscApi JSON_parse_url JSON_parse_preset payload
           (λ _, Resolves {| command := "wipeStorageObject"; data := m |}) s)
  = s.
Proof.
  unfold Thunks.wipeStorageObject, vscApi, conclude, dispatch, reducer.
  destruct (reply payload); cbn; repeat split; by destruct s.
Qed.

(** X17.  No thunk of the slice has a case for a call that is rejected or
    never answered: [getMasterObject], [vscApi], [validatePort] and
    [savePreset] then leave the store exactly as it was, and
    [wipeStorageObject] leaves it with [loading] set. *)
Theorem unsuccessful_calls_change_nothing
    (JSON_parse_url : string → option Url)
    (JSON_parse_preset : string → option Preset.t)
    (s : State) (payload : val) (name : string) (failure : option val) :
  let failed (A : Type) : awaited A :=
    match failure with
    | Some e => Rejects e
    | None => Stalls
    end in
  final (getMasterObject JSON_parse_url JSON_parse_preset (λ _, failed _) s) = s ∧
  final (vscApi JSON_parse_url JSON_parse_preset payload (λ _, failed _) s) = s ∧
  final (Thunks.validatePort JSON_parse_url JSON_parse_preset payload (λ _, failed _) s)
  = s ∧
  final (Thunks.savePreset JSON_parse_url JSON_parse_preset name (λ _, failed _) s) = s ∧
  final (Thunks.wipeStorageObject JSON_parse_url JSON_parse_preset payload
           (λ _, failed _) s)
  = set_loading true s.
Proof.
  intros failed. subst failed. destruct failure; cbn; repeat split; by destruct s.
Qed.

End TransitionFacts.

(** ** More on the request builder *)

Section BuilderFacts.
Import Store Params.

Lemma headersObject_fold (hs : list Entry) (k : string) :
  ∀ o : gmap string HeaderValue,
    fold_left (λ o el, if blank el then o else <[key el := Str (value el)]> o) hs o !! k
    = match last (filter (λ el, blank el = false ∧ key el = k) hs) with
      | Some el => Some (Str (value el))
      | None => o !! k
      end.
Proof.
  induction hs as [|h hs IH]; intros o; [reflexivity|].
  cbn [fold_left]. rewrite IH, filter_cons.
  destruct (decide (blank h = false ∧ key h = k)) as [[Hb Hk]|Hn].
  - rewrite last_cons, Hb.
    destruct (last (filter _ hs)); [done|]. rewrite <- Hk. apply lookup_insert_eq.
  - destruct (last (filter _ hs)); [done|].
    destruct (blank h) eqn:Hb; [done|].
    apply lookup_insert_ne. intros Hk. by apply Hn.
Qed.



(** X19.  A header row named [cookie] with a non-empty value takes the
    place of the cookie list: the request's [cookie] field is the value of
    the last such row, whatever the cookies are. *)
Theorem header_named_cookie_wins (i : Inputs) (currentUrl : Url) (el : Entry) :
  last (filter (λ el, blank el = false ∧ key el = "cookie") (headers (headerState i)))
  = Some el →
  Request.headers (build i currentUrl) !! "cookie" = Some (Str (value el)).
Proof.
  intros Hl. cbn [build Request.headers]. unfold merge_headers, headersObject.
  assert (Hfold := headersObject_fold (headers (headerState i)) "cookie" ∅).
  rewrite Hl in Hfold.
  destruct (0 <? length (cookiesArray (cookieState i)))%nat; [|done].
  by apply lookup_union_Some_l.
Qed.

(** X19, with one cookie and one header row named [cookie]. *)
Lemma header_named_cookie_wins_witness :
  let i := set_headerState {| headers := [{| key := "cookie"; value := "sid=1" |}] |}
             (inputs (Samples.busy "p1")) in
  cookiesArray (cookieState i) = ["a = b"] ∧
  Request.headers (build i Samples.url) !! "cookie" = Some (Str "sid=1").
Proof.
  intros i. split; [reflexivity|].
  apply (header_named_cookie_wins i Samples.url {| key := "cookie"; value := "sid=1" |}).
  reflexivity.
Defined.

Lemma insert_params_keeps (frozen : bool) (ps : list (string * string)) :
  ∀ u u', insert_params frozen ps u = Normal u' →
          href u' = href u ∧ filePath u' = filePath u ∧ presets u' = presets u.
Proof.
  unfold insert_params.
  match goal with |- context [fold_left ?f] => set (step := f) end.
  assert (Hthrow : ∀ qs e, fold_left step qs (Throw e) = Throw e).
  { induction qs as [|[k v] qs IH]; intros e; [reflexivity|]. simpl. apply IH. }
  induction ps as [|[k v] ps IH]; intros u u' H; simpl in H.
  - by injection H as <-.
  - destruct (0 <? String.length v)%nat.
    + destruct frozen; [by rewrite Hthrow in H|].
      by destruct (IH _ _ H) as (-> & -> & ->).
    + by apply IH.
Qed.

(** X20.  When [makeRequest] gets as far as issuing its call, the request
    carries the [href] of the selected url as it was stored, whatever the
    path parameters are: inserting them only ever assigns [pathname].  It
    carries the method and the body of the inputs, and in the store only
    the url's [pathname] may have changed besides [waiting]. *)
Theorem makeRequest_request
    (JSON_parse_url : string → option Url)
    (JSON_parse_preset : string → option Preset.t)
    (frozen : bool) (s s1 : State) (u : Url) (actions : list Action)
    (request : Request.t) :
  urlState (inputs s) = UrlObject u →
  makeRequest_creator JSON_parse_url JSON_parse_preset frozen s
  = (s1, actions, Awaiting request) →
  Request.baseURL request = href u ∧
  Request.method request = methodState (inputs s) ∧
  Request.data request = dataState (inputs s) ∧
  ∃ u', urlState (inputs s1) = UrlObject u' ∧
        href u' = href u ∧ filePath u' = filePath u ∧ presets u' = presets u ∧
        s1 = set_waiting true (set_inputs (set_urlState (UrlObject u')) s).
Proof.
  intros Hu Hc. unfold makeRequest_creator in Hc.
  change (inputs (dispatch JSON_parse_url JSON_parse_preset s (setWaiting true)))
    with (inputs s) in Hc.
  rewrite Hu in Hc.
  destruct (insert_params frozen (paramState (inputs s)) u) as [u'|e] eqn:Hi;
    [|discriminate].
  injection Hc as <- <- <-.
  destruct (insert_params_keeps _ _ _ _ Hi) as (Hh & Hf & Hp).
  cbn. repeat split; try done.
  exists u'. repeat split; done.
Qed.

(** X20, with a path parameter filled in. *)
Lemma makeRequest_request_witness :
  let s := dispatch Samples.parse_url Samples.parse_preset (Samples.busy "p1")
             (setParamState "id" "42") in
  ∃ s1 actions request,
    makeRequest_creator Samples.parse_url Samples.parse_preset false s
    = (s1, actions, Awaiting request) ∧
    Request.baseURL request = "http://localhost:3000/users/:id" ∧
    ∃ u', urlState (inputs s1) = UrlObject u' ∧ pathname u' = "/users/42".
Proof.
  intros s. eexists _, _, _. split; [reflexivity|].
  split.
  - refine (proj1 (makeRequest_request Samples.parse_url Samples.parse_preset false
                     s _ _ _ _ eq_refl eq_refl)).
  - eexists. split; reflexivity.
Defined.

End BuilderFacts.

(** ** Path parameters *)

Section PathFacts.
Import Store Params.

Lemma chars_app (a b : string) :
  list_ascii_of_string (a +:+ b) = list_ascii_of_string a ++ list_ascii_of_string b.
Proof. induction a as [|c a IH]; [reflexivity|]. simpl. by rewrite IH. Qed.

Lemma length_app_string (a b : string) :
  String.length (a +:+ b) = (String.length a + String.length b)%nat.
Proof. induction a as [|c a IH]; [reflexivity|]. simpl. by rewrite IH. Qed.

Lemma encoded_char (c : Ascii.ascii) :
  Forall (λ x, unreserved x = true ∨ x = "%"%char)
    (list_ascii_of_string
       (if unreserved c then String c EmptyString
        else String "%"%char
               (String (hex_digit (Ascii.N_of_ascii c / 16))
                  (String (hex_digit (Ascii.N_of_ascii c mod 16)) EmptyString)))).
Proof.
  pose (piece := λ c : Ascii.ascii,
          if unreserved c then String c EmptyString
          else String "%"%char
                 (String (hex_digit (Ascii.N_of_ascii c / 16))
                    (String (hex_digit (Ascii.N_of_ascii c mod 16)) EmptyString))).
  assert (Hall : List.forallb
                   (λ n, List.forallb (λ x, unreserved x || Ascii.eqb x "%")
                           (list_ascii_of_string (piece (Ascii.ascii_of_nat n))))
                   (seq 0 256) = true) by (vm_compute; reflexivity).
  rewrite List.forallb_forall in Hall.
  specialize (Hall (Ascii.nat_of_ascii c)).
  rewrite Ascii.ascii_nat_embedding in Hall.
  change (Forall (λ x, unreserved x = true ∨ x = "%"%char)
            (list_ascii_of_string (piece c))).
  apply Forall_forall. intros x Hx.
  assert (Hin : In (Ascii.nat_of_ascii c) (seq 0 256)).
  { apply in_seq. pose proof (Ascii.nat_ascii_bounded c). lia. }
  specialize (Hall Hin). rewrite List.forallb_forall in Hall.
  apply list_elem_of_In in Hx. specialize (Hall x Hx).
  apply orb_true_iff in Hall as [H|H]; [by left|right].
  by apply Ascii.eqb_eq in H.
Qed.

Lemma encoded_length (s : string) :
  (String.length s ≤ String.length (encodeURIComponent s))%nat ∧
  (String.length (encodeURIComponent s) ≤ 3 * String.length s)%nat.
Proof.
  induction s as [|c s [IH1 IH2]]; [simpl; lia|].
  cbn [encodeURIComponent]. rewrite length_app_string.
  destruct (unreserved c); simpl; lia.
Qed.

(** What [encodeURIComponent] returns: its alphabet, its length, and when
    it is the identity. *)
Lemma encodeURIComponent_alphabet (s : string) :
  Forall (λ x, unreserved x = true ∨ x = "%"%char)
    (list_ascii_of_string (encodeURIComponent s)) ∧
  (String.length s ≤ String.length (encodeURIComponent s))%nat ∧
  (String.length (encodeURIComponent s) ≤ 3 * String.length s)%nat ∧
  (encodeURIComponent s = s
   ↔ Forall (λ x, unreserved x = true) (list_ascii_of_string s)).
Proof.
  split; [|split; [apply encoded_length|split; [apply encoded_length|]]].
  - induction s as [|c s IH]; [constructor|].
    cbn [encodeURIComponent]. rewrite chars_app. apply Forall_app. split; [|done].
    apply encoded_char.
  - induction s as [|c s IH]; [split; [constructor|reflexivity]|].
    cbn [encodeURIComponent list_ascii_of_string]. rewrite Forall_cons.
    destruct (unreserved c) eqn:Hc.
    + simpl. rewrite <- IH. split; [intros [= E]; done|intros [_ ->]; done].
    + split; [|intros [? _]; done].
      intros E. apply (f_equal String.length) in E.
      rewrite length_app_string in E. simpl in E.
      pose proof (encoded_length s). lia.
Qed.











(** X23.  A value inserted into the path never holds a placeholder: its
    percent-encoded form has no colon, so no [:name] occurs in it and a
    parameter inserted earlier cannot be taken for the placeholder of a
    later one. *)
Theorem inserted_value_has_no_placeholder (k v : string) :
  ¬ occurs (":" +:+ k) (encodeURIComponent v).
Proof.
  intros (b & a & E).
  destruct (encodeURIComponent_alphabet v) as [Hall _].
  rewrite E, chars_app in Hall. apply Forall_app in Hall as [_ Hall].
  cbn in Hall. apply Forall_cons in Hall as [[H|H] _]; discriminate H.
Qed.

End PathFacts.
